(** * Section lookup and image enumeration for COFF/PE images

    A shallow embedding of [Sources/_ImageryInternals/Implementation+COFF.cpp]
    and the properties of its functions.

    The C++ code reinterprets raw process memory as Windows header structures.
    Memory is modelled as a total map from addresses to bytes, pointers as
    64-bit unsigned integers with their wrap-around written out, and every
    function that dereferences a pointer runs in a small reader monad that
    also records which addresses were loaded, in order. *)

From Stdlib Require Import String ZArith List Lia Bool.
From coqutil Require Import Byte Word.LittleEndianList.
Import ListNotations.
Local Open Scope Z_scope.

(** ** Pointers *)

(** [uintptr_t] on the 64-bit Windows targets. *)
Definition uintptr_bits : Z := 64.

Definition uintptr_wrap (z : Z) : Z := z mod 2 ^ uintptr_bits.

(** [reinterpret_cast<uintptr_t>(p) + off], with unsigned wrap-around. *)
Definition ptr_add (p off : Z) : Z := uintptr_wrap (p + off).

Definition valid_ptr (p : Z) : Prop := 0 <= p < 2 ^ uintptr_bits.

(** ** Memory and the reader monad *)

Definition Memory : Type := Z -> byte.

(** A computation that reads memory: its value and the addresses it loaded. *)
Definition Read (A : Type) : Type := Memory -> A * list Z.

Definition ret {A} (a : A) : Read A := fun _ => (a, []).

Definition bind {A B} (c : Read A) (k : A -> Read B) : Read B :=
  fun m => let (a, t1) := c m in
           let (b, t2) := k a m in
           (b, t1 ++ t2).

Notation "x <- c ;; k" := (bind c (fun x => k))
  (at level 61, c at next level, right associativity).

Definition result {A} (c : Read A) (m : Memory) : A := fst (c m).
Definition trace {A} (c : Read A) (m : Memory) : list Z := snd (c m).

(** The [n] consecutive addresses starting at [p]. *)
Definition span (p : Z) (n : nat) : list Z :=
  map (fun i => ptr_add p (Z.of_nat i)) (seq 0 n).

Definition load_bytes (p : Z) (n : nat) : Read (list byte) :=
  fun m => (map m (span p n), span p n).

(** [unsigned char], [WORD] and [DWORD] loads; the targets are little-endian. *)
Definition load_u8 (p : Z) : Read Z :=
  bs <- load_bytes p 1 ;; ret (le_combine bs).
Definition load_u16 (p : Z) : Read Z :=
  bs <- load_bytes p 2 ;; ret (le_combine bs).
Definition load_u32 (p : Z) : Read Z :=
  bs <- load_bytes p 4 ;; ret (le_combine bs).

(** Two's complement reading of a 32-bit value ([LONG]). *)
Definition signed32 (v : Z) : Z := if v <? 2 ^ 31 then v else v - 2 ^ 32.

Definition load_i32 (p : Z) : Read Z :=
  v <- load_u32 p ;; ret (signed32 v).

(** ** Declarations of the Windows SDK used by the file *)

(** Modelled from the spec: [<Windows.h>] is not part of the sources.  The
    field offsets, the signature constant, the name length and the
    [IMAGE_FIRST_SECTION] macro are the ones of the SDK's [winnt.h]: the spec
    speaks of the "new header offset" field of the DOS header, of a fixed
    magic signature, of a section table "immediately following the NT header"
    whose position is derived from a header field, and of a fixed 8-byte
    name field. *)
Module WinNT.

(** [IMAGE_DOS_HEADER]: 64 bytes, [LONG e_lfanew] is its last field. *)
Definition sizeof_IMAGE_DOS_HEADER : Z := 64.
Definition offsetof_e_lfanew : Z := 60.

(** [IMAGE_NT_HEADERS]: [DWORD Signature], [IMAGE_FILE_HEADER FileHeader]
    (20 bytes), then the optional header. *)
Definition offsetof_Signature : Z := 0.
Definition offsetof_FileHeader : Z := 4.
Definition offsetof_OptionalHeader : Z := 24.
(** [IMAGE_FILE_HEADER]: [WORD Machine], [WORD NumberOfSections], three
    [DWORD]s, [WORD SizeOfOptionalHeader], [WORD Characteristics]. *)
Definition offsetof_NumberOfSections : Z := 2.
Definition offsetof_SizeOfOptionalHeader : Z := 16.

(** "PE\0\0" *)
Definition IMAGE_NT_SIGNATURE : Z := 0x00004550.

(** [IMAGE_SECTION_HEADER]: 40 bytes. *)
Definition IMAGE_SIZEOF_SHORT_NAME : nat := 8.
Definition sizeof_IMAGE_SECTION_HEADER : Z := 40.
Definition offsetof_Name : Z := 0.
Definition offsetof_VirtualSize : Z := 8.
Definition offsetof_VirtualAddress : Z := 12.
Definition offsetof_SizeOfRawData : Z := 16.

(** [IMAGE_FIRST_SECTION(ntheader)]:
    [(ULONG_PTR)ntheader + FIELD_OFFSET(IMAGE_NT_HEADERS, OptionalHeader)
       + ntheader->FileHeader.SizeOfOptionalHeader]. *)
Definition IMAGE_FIRST_SECTION (ntheader : Z) : Read Z :=
  sizeOfOptionalHeader <-
    load_u16 (ptr_add ntheader (offsetof_FileHeader + offsetof_SizeOfOptionalHeader)) ;;
  ret (ptr_add (ptr_add ntheader offsetof_OptionalHeader) sizeOfOptionalHeader).

End WinNT.
Import WinNT.

(** ** The C library's [strncmp] *)

(** Modelled from the spec: [<cstring>] is not part of the sources.  The
    spec calls the comparison bounded by 8 bytes; [std::strncmp], which the
    source calls, is modelled as the C standard defines it: it compares at
    most [n] characters as [unsigned char], characters that follow a null
    character are not compared, and the value is zero or the difference of
    the first two characters that differ. *)
Fixpoint strncmp (s1 s2 : Z) (n : nat) : Read Z :=
  match n with
  | O => ret 0
  | S n' =>
      c1 <- load_u8 s1 ;;
      c2 <- load_u8 s2 ;;
      if c1 =? c2
      then if c1 =? 0 then ret 0
           else strncmp (ptr_add s1 1) (ptr_add s2 1) n'
      else ret (c1 - c2)
  end.

(** ** Images and sections *)

(** [SMLImage]: the base address and the name resolved at construction. *)
Record SMLImage : Type := mkImage {
  base : Z;
  name : list Z
}.

(** [SMLSection]: a view [(start, size)] into the image's memory. *)
Record SMLSection : Type := mkSection {
  start : Z;
  size : Z
}.

(** What a call of [sml_findSection] does.  The C++ function returns [bool]
    and writes [*outSection] only before [return true]; the two kinds of
    [return false] are told apart here by the statement that returns. *)
Inductive Outcome : Type :=
| InvalidImageFormat          (* [return false] after a header check *)
| SectionNotFound             (* [return false] after the loop *)
| Found (s : SMLSection).     (* [*outSection] set, [return true] *)

Definition returned_bool (o : Outcome) : bool :=
  match o with Found _ => true | _ => false end.

Definition outSection (o : Outcome) : option SMLSection :=
  match o with Found s => Some s | _ => None end.

(** The body of the [for] loop, for the [remaining = sectionCount - i]
    entries from [section] on; [section += 1] advances by one
    [IMAGE_SECTION_HEADER].  A field the source names twice
    ([section->VirtualAddress], and [dosHeader->e_lfanew] below) is loaded
    once. *)
Fixpoint sml_findSection_loop (dosHeader sectionName : Z)
    (remaining : nat) (section : Z) : Read Outcome :=
  match remaining with
  | O => ret SectionNotFound
  | S remaining' =>
      let next :=
        sml_findSection_loop dosHeader sectionName remaining'
          (ptr_add section sizeof_IMAGE_SECTION_HEADER) in
      virtualAddress <- load_u32 (ptr_add section offsetof_VirtualAddress) ;;
      if virtualAddress =? 0 then next
      else
        let start := ptr_add dosHeader virtualAddress in
        virtualSize <- load_u32 (ptr_add section offsetof_VirtualSize) ;;
        sizeOfRawData <- load_u32 (ptr_add section offsetof_SizeOfRawData) ;;
        let size := Z.min virtualSize sizeOfRawData in
        if negb (start =? 0) && (0 <? size) then
          let thisSectionName := ptr_add section offsetof_Name in
          c <- strncmp sectionName thisSectionName IMAGE_SIZEOF_SHORT_NAME ;;
          if c =? 0 then ret (Found (mkSection start size))
          else next
        else next
  end.

Definition sml_findSection (image : SMLImage) (sectionName : Z) : Read Outcome :=
  let dosHeader := base image in
  e_lfanew <- load_i32 (ptr_add dosHeader offsetof_e_lfanew) ;;
  if e_lfanew <=? 0 then ret InvalidImageFormat
  else
    let ntHeader := ptr_add dosHeader e_lfanew in
    if ntHeader =? 0 then ret InvalidImageFormat
    else
      signature <- load_u32 (ptr_add ntHeader offsetof_Signature) ;;
      if negb (signature =? IMAGE_NT_SIGNATURE) then ret InvalidImageFormat
      else
        sectionCount <-
          load_u16 (ptr_add ntHeader (offsetof_FileHeader + offsetof_NumberOfSections)) ;;
        section <- IMAGE_FIRST_SECTION ntHeader ;;
        sml_findSection_loop dosHeader sectionName (Z.to_nat sectionCount) section.

(** ** Concrete memories *)

(** [bytes] written at [p] over the memory [m]. *)
Definition place (p : Z) (bytes : list byte) (m : Memory) : Memory :=
  fun a =>
    if (p <=? a) && (a <? p + Z.of_nat (length bytes))
    then nth (Z.to_nat (a - p)) bytes Byte.x00
    else m a.

Definition zero_memory : Memory := fun _ => Byte.x00.

Definition zeros (n : nat) : list byte := repeat Byte.x00 n.

Definition u16 (v : Z) : list byte := le_split 2 v.
Definition u32 (v : Z) : list byte := le_split 4 v.

(** An 8-byte section name field: the characters, padded with nulls. *)
Definition name8 (s : string) : list byte :=
  firstn 8 (list_byte_of_string s ++ zeros 8).

(** A DOS header whose [e_lfanew] is [off]. *)
Definition dos_header (off : Z) : list byte :=
  list_byte_of_string "MZ" ++ zeros 58 ++ u32 off.

(** NT headers with an empty optional header and [n] sections. *)
Definition nt_headers (n : Z) : list byte :=
  u32 IMAGE_NT_SIGNATURE ++ u16 0x8664 ++ u16 n ++ zeros 12 ++ u16 0 ++ u16 0.

Definition section_header (nm : list byte) (vsize va rawsize : Z) : list byte :=
  nm ++ u32 vsize ++ u32 va ++ u32 rawsize ++ zeros 20.

(** A small image: headers and two section-table entries. *)
Definition sample_headers : list byte :=
  dos_header 64 ++ nt_headers 2
  ++ section_header (name8 ".text") 0x200 0x1000 0x200
  ++ section_header (name8 "TESTDAT") 0x30 0x2000 0x40.

Definition sample_base : Z := 0x10000.
Definition sample_name_ptr : Z := 0x8000.

Definition sample_memory : Memory :=
  place sample_base sample_headers
    (place sample_name_ptr (list_byte_of_string "TESTDAT") zero_memory).

Definition sample_image : SMLImage := mkImage sample_base [].


(** ** The header walk, field by field *)

(** The values [sml_findSection] reads, as plain functions of the memory. *)
Section Fields.
Variable m : Memory.

Definition dos_e_lfanew (image : SMLImage) : Z :=
  result (load_i32 (ptr_add (base image) offsetof_e_lfanew)) m.

Definition nt_header (image : SMLImage) : Z :=
  ptr_add (base image) (dos_e_lfanew image).

Definition nt_signature (image : SMLImage) : Z :=
  result (load_u32 (ptr_add (nt_header image) offsetof_Signature)) m.

Definition section_count (image : SMLImage) : nat :=
  Z.to_nat (result (load_u16 (ptr_add (nt_header image)
                       (offsetof_FileHeader + offsetof_NumberOfSections))) m).

Definition first_section (image : SMLImage) : Z :=
  result (IMAGE_FIRST_SECTION (nt_header image)) m.

Definition entry_VirtualAddress (section : Z) : Z :=
  result (load_u32 (ptr_add section offsetof_VirtualAddress)) m.
Definition entry_VirtualSize (section : Z) : Z :=
  result (load_u32 (ptr_add section offsetof_VirtualSize)) m.
Definition entry_SizeOfRawData (section : Z) : Z :=
  result (load_u32 (ptr_add section offsetof_SizeOfRawData)) m.
Definition entry_Name (section : Z) : list byte :=
  result (load_bytes (ptr_add section offsetof_Name) IMAGE_SIZEOF_SHORT_NAME) m.

(** The characters of the string at [p] before its terminator, looking at
    no more than [n] of them. *)
Fixpoint cstr_prefix (p : Z) (n : nat) : list byte :=
  match n with
  | O => []
  | S n' =>
      let c := m (ptr_add p 0) in
      if byte.unsigned c =? 0 then []
      else c :: cstr_prefix (ptr_add p 1) n'
  end.

(** [strnlen(p, n)]. *)
Definition strnlen (p : Z) (n : nat) : nat := List.length (cstr_prefix p n).

(** ** The scan of the section table, in the words of the spec *)

(** The addresses of [count] consecutive entries, in table order. *)
Fixpoint section_table (section : Z) (count : nat) : list Z :=
  match count with
  | O => []
  | S count' =>
      section :: section_table (ptr_add section sizeof_IMAGE_SECTION_HEADER) count'
  end.

Definition entry_start (dosHeader section : Z) : Z :=
  ptr_add dosHeader (entry_VirtualAddress section).

Definition entry_size (section : Z) : Z :=
  Z.min (entry_VirtualSize section) (entry_SizeOfRawData section).

(** Nonzero relative virtual address, non-null start, size above zero. *)
Definition eligible (dosHeader section : Z) : bool :=
  negb (entry_VirtualAddress section =? 0)
  && negb (entry_start dosHeader section =? 0)
  && (0 <? entry_size section).

(** The name comparison of the code. *)
Definition name_matches (sectionName section : Z) : bool :=
  result (strncmp sectionName (ptr_add section offsetof_Name)
            IMAGE_SIZEOF_SHORT_NAME) m =? 0.

(** Equality of all eight bytes. *)
Definition name_equals (sectionName section : Z) : bool :=
  if list_eq_dec Byte.byte_eq_dec
       (result (load_bytes sectionName IMAGE_SIZEOF_SHORT_NAME) m)
       (entry_Name section)
  then true else false.

(** First entry, in table order, that is eligible and whose name
    [matches]; its [(start, size)], or not-found. *)
Definition first_match (matches : Z -> bool) (dosHeader : Z)
    (section : Z) (count : nat) : Outcome :=
  match find (fun s => eligible dosHeader s && matches s)
             (section_table section count) with
  | Some s => Found (mkSection (entry_start dosHeader s) (entry_size s))
  | None => SectionNotFound
  end.

(** The header checks, then the scan: the walk for a given comparison
    of names. *)
Definition walk (matches : Z -> bool) (image : SMLImage) : Outcome :=
  if dos_e_lfanew image <=? 0 then InvalidImageFormat
  else if nt_header image =? 0 then InvalidImageFormat
  else if negb (nt_signature image =? IMAGE_NT_SIGNATURE) then InvalidImageFormat
  else first_match matches (base image) (first_section image) (section_count image).

(** The two header checks pass. *)
Definition headers_valid (image : SMLImage) : Prop :=
  0 < dos_e_lfanew image
  /\ nt_header image <> 0
  /\ nt_signature image = IMAGE_NT_SIGNATURE.

End Fields.

(** [a] lies in the range of [moduleSize] bytes mapped at [base]. *)
Definition in_mapped_range (base moduleSize a : Z) : Prop :=
  base <= a < base + moduleSize.

(** ** Enumeration of the loaded modules *)

Definition HMODULE : Type := Z.

Definition sizeof_HMODULE : Z := 8.

Definition DWORD_wrap (z : Z) : Z := z mod 2 ^ 32.

(** What the operating system knows of the current process when it is
    queried: the loaded modules in its order, whether the listing succeeds,
    and each module's file name as UTF-16 code units. *)
Record Process : Type := mkProcess {
  loaded_modules : list HMODULE;
  enumeration_succeeds : bool;
  module_file_name : HMODULE -> list Z
}.

(** Modelled from the spec: [<Psapi.h>] is not part of the sources.
    [EnumProcessModules(process, buffer, cb, &needed)] stores as many handles
    as fit in [cb] bytes, sets [needed] to the bytes the whole list takes,
    and returns [FALSE] when the query fails. *)
Definition EnumProcessModules (p : Process) (cb : Z) : option (list HMODULE * Z) :=
  if enumeration_succeeds p
  then Some (firstn (Z.to_nat (cb / sizeof_HMODULE)) (loaded_modules p),
             DWORD_wrap (Z.of_nat (List.length (loaded_modules p)) * sizeof_HMODULE))
  else None.

(** Modelled from the spec: [GetModuleFileNameW(module, buffer, nSize)]
    stores at most [nSize] code units and returns how many; zero is failure. *)
Definition GetModuleFileNameW (p : Process) (h : HMODULE) (nSize : nat) : list Z :=
  firstn nSize (module_file_name p h).

(** Modelled from the spec: [Image.h], which declares the [name] array of
    [SMLImage], is not part of the sources; the spec bounds the name
    resolved at construction by 2048 code units. *)
Definition SMLImage_name_capacity : nat := 2048.

(** The constructor [SMLImage::SMLImage(const void *base)]. *)
Definition SMLImage_new (p : Process) (base : Z) : SMLImage :=
  let written := GetModuleFileNameW p base SMLImage_name_capacity in
  if (List.length written =? 0)%nat
  then mkImage base []        (* [name[0] = 0] *)
  else mkImage base written.

(** [SMLImageEnumerator]: called as [body(&image, &stop, context)] with
    [stop] false; it may change what [context] points to and may set [stop]. *)
Definition SMLImageEnumerator (C : Type) : Type := SMLImage -> C -> bool * C.

(** Capacity of [std::array<HMODULE, 1024> hModules]. *)
Definition hModules_size : Z := 1024.

Section Enumerate.
Context {C : Type}.
Variable p : Process.
Variable body : SMLImageEnumerator C.

(** The [for] loop over the handles [hModules[i]], [i < hModuleCount]. *)
Fixpoint sml_enumerateImages_loop (hModules : list HMODULE) (context : C) : C :=
  match hModules with
  | [] => context
  | hModule :: rest =>
      let image := SMLImage_new p hModule in
      let (stop, context') := body image context in
      if stop then context'
      else sml_enumerateImages_loop rest context'
  end.

Definition sml_enumerateImages (context : C) : C :=
  match EnumProcessModules p (hModules_size * sizeof_HMODULE) with
  | None => context
  | Some (hModules, byteCountNeeded) =>
      let hModuleCount :=
        DWORD_wrap (Z.min hModules_size (byteCountNeeded / sizeof_HMODULE)) in
      sml_enumerateImages_loop (firstn (Z.to_nat hModuleCount) hModules) context
  end.

End Enumerate.

(** A visitor that also records each of its invocations: the image it was
    given and whether it set [stop]. *)
Definition logged {C} (body : SMLImageEnumerator C)
  : SMLImageEnumerator (C * list (SMLImage * bool)) :=
  fun image st =>
    let (stop, context') := body image (fst st) in
    (stop, (context', snd st ++ [(image, stop)])).

Definition invocations {C} (p : Process) (body : SMLImageEnumerator C)
    (context : C) : list (SMLImage * bool) :=
  snd (sml_enumerateImages p (logged body) (context, [])).

(** The handles the loop runs over: [hModules[0 .. hModuleCount)], none when
    the query fails. *)
Definition snapshot (p : Process) : list HMODULE :=
  match EnumProcessModules p (hModules_size * sizeof_HMODULE) with
  | None => []
  | Some (hModules, byteCountNeeded) =>
      firstn (Z.to_nat (DWORD_wrap (Z.min hModules_size
                                      (byteCountNeeded / sizeof_HMODULE))))
             hModules
  end.

(** The invocations the spec asks for over the handles [hs]: one per handle,
    in order, none after one that sets [stop]. *)
Fixpoint visits {C} (p : Process) (body : SMLImageEnumerator C)
    (hs : list HMODULE) (context : C) : list (SMLImage * bool) :=
  match hs with
  | [] => []
  | h :: rest =>
      let image := SMLImage_new p h in
      (image, fst (body image context))
      :: (if fst (body image context) then []
          else visits p body rest (snd (body image context)))
  end.

Definition visited_base (call : SMLImage * bool) : HMODULE := base (fst call).
Definition set_stop (call : SMLImage * bool) : bool := snd call.

(** ** [sml_copyImageName] *)

(** How control leaves a function whose return type is not [void]. *)
Inductive Completion (A : Type) : Type :=
| Returned (v : A)       (* a [return] statement gave the value *)
| FlowedOffEnd.          (* the closing brace was reached *)
Arguments Returned {A} v.
Arguments FlowedOffEnd {A}.

(** [wchar_t *sml_copyImageName(const SMLImage *image) { }]: the body has no
    statement. *)
Definition sml_copyImageName (image : SMLImage) : Completion Z :=
  FlowedOffEnd.

(** ** Sample memories *)

(** A section named with eight characters, asked for with nine. *)
Definition long_name_memory : Memory :=
  place sample_base
    (dos_header 64 ++ nt_headers 1
     ++ section_header (name8 "TESTDATA") 0x30 0x2000 0x40)
    (place sample_name_ptr (list_byte_of_string "TESTDATAX") zero_memory).

(** A name field with bytes after its first null, asked for as "TEST". *)
Definition embedded_nul_name : list byte :=
  list_byte_of_string "TEST" ++ [Byte.x00] ++ list_byte_of_string "DAT".

Definition embedded_nul_memory : Memory :=
  place sample_base
    (dos_header 64 ++ nt_headers 1
     ++ section_header embedded_nul_name 0x30 0x2000 0x40)
    (place sample_name_ptr (list_byte_of_string "TEST") zero_memory).

(** A first entry without a relative virtual address, then a mapped one. *)
Definition placeholder_memory : Memory :=
  place sample_base
    (dos_header 64 ++ nt_headers 2
     ++ section_header (name8 "TESTDAT") 0x30 0 0x40
     ++ section_header (name8 "TESTDAT") 0x50 0x3000 0x60)
    (place sample_name_ptr (list_byte_of_string "TESTDAT") zero_memory).


(** A buffer of zeros. *)
Definition zero_buffer_memory : Memory := place sample_base (zeros 4096) zero_memory.

(** Only a DOS header, 64 bytes, that points right behind itself. *)
Definition lone_dos_header : list byte := dos_header 64.
Definition lone_dos_header_memory : Memory :=
  place sample_base lone_dos_header zero_memory.

(** One mapped page whose headers pass both checks and declare an optional
    header of 0xFFFF bytes, so that the section table starts far behind the
    page. *)
Definition far_table_headers : list byte :=
  dos_header 64
  ++ u32 IMAGE_NT_SIGNATURE ++ u16 0x8664 ++ u16 1 ++ zeros 12 ++ u16 0xFFFF ++ u16 0.
Definition far_table_memory : Memory :=
  place sample_base (far_table_headers ++ zeros (4096 - 88)) zero_memory.

(** A DOS header in the last 64 bytes of the address space, and "PE\0\0"
    at address zero. *)
Definition top_base : Z := 2 ^ 64 - 64.
Definition top_memory : Memory :=
  place top_base (dos_header 64) (place 0 (u32 IMAGE_NT_SIGNATURE) zero_memory).
Definition top_image : SMLImage := mkImage top_base [].

(** A process with three modules and a visitor that stops at a given base. *)
Definition sample_process : Process :=
  mkProcess [0x10000; 0x20000; 0x30000] true (fun _ => []).

Definition stop_at (b : Z) : SMLImageEnumerator nat :=
  fun image visited => (base image =? b, S visited).

Definition failing_process : Process :=
  mkProcess [0x10000; 0x20000; 0x30000] false (fun _ => []).

(** A process with 1030 modules. *)
Definition crowded_process : Process :=
  mkProcess (map (fun i => 0x10000 * Z.of_nat i) (seq 1 1030)) true (fun _ => []).

Definition never_stop : SMLImageEnumerator nat :=
  fun image visited => (false, S visited).

(** ** The main image, address lookup and scoped names *)

(** Modelled from the spec: [<Windows.h>] is not part of the sources.  What
    the loader answers besides the module list: the handle of the process's
    executable, which [GetModuleHandleW(nullptr)] returns, and for an address
    the module whose mapping contains it, if any. *)
Record Loader : Type := mkLoader {
  loader_process : Process;
  main_module : HMODULE;
  module_from_address : Z -> option HMODULE
}.

Definition GetModuleHandleW_null (l : Loader) : HMODULE := main_module l.

(** Modelled from the spec: [GetModuleHandleExW] with the flags
    [FROM_ADDRESS | UNCHANGED_REFCOUNT] stores the handle of the module that
    contains [address] and returns [TRUE], or returns [FALSE] and leaves
    [*phModule] as it was. *)
Definition GetModuleHandleExW_from_address (l : Loader) (address : Z)
    (hModule : HMODULE) : bool * HMODULE :=
  match module_from_address l address with
  | Some h => (true, h)
  | None => (false, hModule)
  end.

(** [*outImage = SMLImage(GetModuleHandleW(nullptr))]. *)
Definition sml_getMainImage (l : Loader) : SMLImage :=
  SMLImage_new (loader_process l) (GetModuleHandleW_null l).

(** [Some image] stands for [*outImage = image; return true], [None] for
    [return false]. *)
Definition sml_getImageContainingAddress (l : Loader) (address : Z)
  : option SMLImage :=
  let hModule := 0 in
  let (gotModule, hModule) := GetModuleHandleExW_from_address l address hModule in
  if gotModule && negb (hModule =? 0)
  then Some (SMLImage_new (loader_process l) hModule)
  else None.

(** [SMLImageNameCallback]: called as [body(image, name, context)], where
    [name] may be null. *)
Definition SMLImageNameCallback (C : Type) : Type :=
  SMLImage -> option (list Z) -> C -> C.

(** Capacity of [std::array<wchar_t, 2048> name]. *)
Definition name_buffer_size : nat := 2048.

Definition sml_withImageName {C} (p : Process) (image : SMLImage) (context : C)
    (body : SMLImageNameCallback C) : C :=
  let name := GetModuleFileNameW p (base image) name_buffer_size in
  if negb (List.length name =? 0)%nat
  then body image (Some name) context
  else body image None context.

(** A visitor that looks for the first image that passes [test]. *)
Definition find_image (test : SMLImage -> bool)
  : SMLImageEnumerator (option SMLImage) :=
  fun image found => if test image then (true, Some image) else (false, found).

(** ** What a walk reads *)

(** The two memories hold the same bytes at the addresses [addrs]. *)
Definition agree_on (addrs : list Z) (m1 m2 : Memory) : Prop :=
  Forall (fun a => m1 a = m2 a) addrs.

(** A computation whose value and reads are fixed by the bytes it reads. *)
Definition local {A} (c : Read A) : Prop :=
  forall m1 m2, agree_on (trace c m1) m1 m2 -> c m1 = c m2.

Definition size_of_optional_header (m : Memory) (image : SMLImage) : Z :=
  result (load_u16 (ptr_add (nt_header m image)
                      (offsetof_FileHeader + offsetof_SizeOfOptionalHeader))) m.

(** The header fields the walk reads: the offset field of the DOS header,
    and the signature, the section count and the optional header's size in
    the NT headers. *)
Definition header_footprint (m : Memory) (image : SMLImage) : list Z :=
  span (ptr_add (base image) offsetof_e_lfanew) 4
  ++ span (ptr_add (nt_header m image) offsetof_Signature) 4
  ++ span (ptr_add (nt_header m image)
             (offsetof_FileHeader + offsetof_NumberOfSections)) 2
  ++ span (ptr_add (nt_header m image)
             (offsetof_FileHeader + offsetof_SizeOfOptionalHeader)) 2.

(** The first 20 bytes of an entry: name, virtual size, virtual address and
    raw-data size. *)
Definition entry_footprint (section : Z) : list Z := span section 20.

Definition footprint (m : Memory) (image : SMLImage) (sectionName : Z) : list Z :=
  header_footprint m image
  ++ flat_map entry_footprint
       (section_table (first_section m image) (section_count m image))
  ++ span sectionName 8.

(** The sample image with the bytes of its "TESTDAT" section filled in. *)
Definition sample_memory_with_contents : Memory :=
  place 0x12000 (list_byte_of_string "test content records") sample_memory.

(** Valid headers that declare no section. *)
Definition empty_table_memory : Memory :=
  place sample_base (dos_header 64 ++ nt_headers 0) zero_memory.

(** A loader whose executable is the first module of [sample_process] and
    whose modules are 0x8000 bytes each. *)
Definition sample_loader : Loader :=
  mkLoader sample_process 0x10000
    (fun a => find (fun h => (h <=? a) && (a <? h + 0x8000))
                   (loaded_modules sample_process)).

(** ** Images a process can hold *)

(** The base of an image leaves room for a 31-bit offset below the end of
    the address space.  User-mode addresses lie far below that bound. *)
Definition addressable_base (image : SMLImage) : Prop :=
  0 <= base image <= 2 ^ uintptr_bits - 2 ^ 31.

(** A run raises an access fault when it loads an address that is not
    mapped; it runs without fault when every address it loads is mapped. *)
Definition runs_without_fault {A} (mapped : Z -> Prop) (c : Read A)
    (m : Memory) : Prop :=
  Forall mapped (trace c m).

(** * Properties *)

Example sample_found :
  result (sml_findSection sample_image sample_name_ptr) sample_memory
  = Found (mkSection 0x12000 0x30).
Proof. vm_compute. reflexivity. Qed.

Example long_name_found :
  result (sml_findSection sample_image sample_name_ptr) long_name_memory
  = Found (mkSection 0x12000 0x30).
Proof. vm_compute. reflexivity. Qed.

Example embedded_nul_found :
  result (sml_findSection sample_image sample_name_ptr) embedded_nul_memory
  = Found (mkSection 0x12000 0x30).
Proof. vm_compute. reflexivity. Qed.

Example placeholder_skipped :
  result (sml_findSection sample_image sample_name_ptr) placeholder_memory
  = Found (mkSection 0x13000 0x50).
Proof. vm_compute. reflexivity. Qed.

Example zero_buffer_rejected :
  sml_findSection sample_image sample_name_ptr zero_buffer_memory
  = (InvalidImageFormat, [0x1003C; 0x1003D; 0x1003E; 0x1003F]).
Proof. vm_compute. reflexivity. Qed.

Example lone_dos_header_reads :
  sml_findSection sample_image sample_name_ptr lone_dos_header_memory
  = (InvalidImageFormat,
     [0x1003C; 0x1003D; 0x1003E; 0x1003F; 0x10040; 0x10041; 0x10042; 0x10043]).
Proof. vm_compute. reflexivity. Qed.

Example top_rejected :
  sml_findSection top_image sample_name_ptr top_memory
  = (InvalidImageFormat,
     [2 ^ 64 - 4; 2 ^ 64 - 3; 2 ^ 64 - 2; 2 ^ 64 - 1]).
Proof. vm_compute. reflexivity. Qed.

Example stop_at_second :
  map (fun c => base (fst c)) (invocations sample_process (stop_at 0x20000) O)
  = [0x10000; 0x20000].
Proof. vm_compute. reflexivity. Qed.

(** ** Pointers and loads *)

Lemma ptr_add_valid p off : valid_ptr (ptr_add p off).
Proof.
  unfold valid_ptr, ptr_add, uintptr_wrap.
  apply Z.mod_pos_bound. reflexivity.
Qed.

Lemma ptr_add_ptr_add p a b : ptr_add (ptr_add p a) b = ptr_add p (a + b).
Proof.
  unfold ptr_add, uintptr_wrap.
  rewrite Zplus_mod_idemp_l. f_equal. lia.
Qed.

Lemma ptr_add_0_valid p : valid_ptr p -> ptr_add p 0 = p.
Proof.
  unfold valid_ptr, ptr_add, uintptr_wrap. intros H.
  rewrite Z.add_0_r. apply Z.mod_small. exact H.
Qed.

Lemma In_span a p n :
  In a (span p n) <-> exists i, (i < n)%nat /\ a = ptr_add p (Z.of_nat i).
Proof.
  unfold span. rewrite in_map_iff. split.
  - intros (i & <- & Hi). apply in_seq in Hi. exists i. split; [lia | reflexivity].
  - intros (i & Hi & ->). exists i. split; [reflexivity | apply in_seq; lia].
Qed.

Lemma result_ret {A} (a : A) m : result (ret a) m = a.
Proof. reflexivity. Qed.

Lemma trace_ret {A} (a : A) m : trace (ret a) m = [].
Proof. reflexivity. Qed.

Lemma result_bind {A B} (c : Read A) (k : A -> Read B) m :
  result (bind c k) m = result (k (result c m)) m.
Proof.
  unfold result, bind. destruct (c m) as [a t1]. cbn.
  destruct (k a m). reflexivity.
Qed.

Lemma trace_bind {A B} (c : Read A) (k : A -> Read B) m :
  trace (bind c k) m = trace c m ++ trace (k (result c m)) m.
Proof.
  unfold result, trace, bind. destruct (c m) as [a t1]. cbn.
  destruct (k a m). reflexivity.
Qed.

Lemma run_eq {A} (c : Read A) m : c m = (result c m, trace c m).
Proof. unfold result, trace. destruct (c m). reflexivity. Qed.

Lemma trace_load_bytes p n m : trace (load_bytes p n) m = span p n.
Proof. reflexivity. Qed.

Lemma trace_load_u8 p m : trace (load_u8 p) m = span p 1.
Proof. unfold load_u8. rewrite trace_bind, trace_load_bytes, trace_ret. apply app_nil_r. Qed.

Lemma trace_load_u16 p m : trace (load_u16 p) m = span p 2.
Proof. unfold load_u16. rewrite trace_bind, trace_load_bytes, trace_ret. apply app_nil_r. Qed.

Lemma trace_load_u32 p m : trace (load_u32 p) m = span p 4.
Proof. unfold load_u32. rewrite trace_bind, trace_load_bytes, trace_ret. apply app_nil_r. Qed.

Lemma trace_load_i32 p m : trace (load_i32 p) m = span p 4.
Proof. unfold load_i32. rewrite trace_bind, trace_load_u32, trace_ret. apply app_nil_r. Qed.

Lemma result_load_u8 p m : result (load_u8 p) m = byte.unsigned (m (ptr_add p 0)).
Proof.
  unfold load_u8. rewrite result_bind, result_ret.
  unfold result, load_bytes, span. cbn [seq map fst].
  apply le_combine_1.
Qed.

Lemma load_u32_range p m : 0 <= result (load_u32 p) m < 2 ^ 32.
Proof.
  unfold load_u32. rewrite result_bind, result_ret.
  pose proof (le_combine_bound (result (load_bytes p 4) m)) as H.
  unfold result, load_bytes in *. cbn [fst] in *.
  rewrite length_map in H. unfold span in H. rewrite length_map, length_seq in H.
  exact H.
Qed.

Lemma load_u16_range p m : 0 <= result (load_u16 p) m < 2 ^ 16.
Proof.
  unfold load_u16. rewrite result_bind, result_ret.
  pose proof (le_combine_bound (result (load_bytes p 2) m)) as H.
  unfold result, load_bytes in *. cbn [fst] in *.
  rewrite length_map in H. unfold span in H. rewrite length_map, length_seq in H.
  exact H.
Qed.

Lemma span_S p n : span p (S n) = ptr_add p 0 :: span (ptr_add p 1) n.
Proof.
  unfold span. cbn [seq map]. f_equal.
  rewrite <- seq_shift, map_map. apply map_ext. intros i.
  rewrite ptr_add_ptr_add. f_equal. lia.
Qed.

(** ** [strncmp] *)

Lemma strncmp_unfold s1 s2 n m :
  result (strncmp s1 s2 (S n)) m =
  let c1 := byte.unsigned (m (ptr_add s1 0)) in
  let c2 := byte.unsigned (m (ptr_add s2 0)) in
  if c1 =? c2
  then if c1 =? 0 then 0 else result (strncmp (ptr_add s1 1) (ptr_add s2 1) n) m
  else c1 - c2.
Proof.
  cbn [strncmp]. rewrite !result_bind, !result_load_u8. cbv zeta.
  destruct (_ =? _); [destruct (_ =? 0) |]; reflexivity.
Qed.

Lemma strncmp_zero_iff m n : forall s1 s2,
  result (strncmp s1 s2 n) m = 0 <-> cstr_prefix m s1 n = cstr_prefix m s2 n.
Proof.
  induction n as [| n IH]; intros s1 s2.
  - cbn. tauto.
  - rewrite strncmp_unfold. cbn [cstr_prefix]. cbv zeta.
    destruct (Z.eqb_spec (byte.unsigned (m (ptr_add s1 0)))
                         (byte.unsigned (m (ptr_add s2 0)))) as [E | NE].
    + rewrite <- E. apply byte.unsigned_inj in E. rewrite <- E.
      destruct (byte.unsigned (m (ptr_add s1 0)) =? 0).
      * tauto.
      * rewrite IH. split; [intros ->; reflexivity | intros H; injection H; auto].
    + split; [lia |]. intros H. exfalso.
      destruct (Z.eqb_spec (byte.unsigned (m (ptr_add s1 0))) 0) as [Z1 | N1];
        destruct (Z.eqb_spec (byte.unsigned (m (ptr_add s2 0))) 0) as [Z2 | N2];
        try discriminate H; try lia.
      injection H as Hb _. apply NE. f_equal. exact Hb.
Qed.

Lemma strncmp_trace m n : forall s1 s2,
  Forall (fun a => In a (span s1 n) \/ In a (span s2 n))
         (trace (strncmp s1 s2 n) m).
Proof.
  induction n as [| n IH]; intros s1 s2.
  - constructor.
  - cbn [strncmp]. rewrite !trace_bind, !trace_load_u8, !result_load_u8.
    rewrite !span_S. cbn [span seq map app].
    constructor; [left; left; reflexivity |].
    constructor; [right; left; reflexivity |].
    destruct (_ =? _); [destruct (_ =? 0) |]; try constructor.
    eapply Forall_impl; [| apply IH].
    cbn. intros a [H | H]; [left | right]; right; exact H.
Qed.

Lemma cstr_prefix_length m n : forall p, (List.length (cstr_prefix m p n) <= n)%nat.
Proof.
  induction n as [| n IH]; intros p; cbn; [lia |].
  destruct (_ =? 0); cbn; [lia |]. specialize (IH (ptr_add p 1)). lia.
Qed.

(** A string with no terminator among its first [n] characters. *)
Lemma cstr_prefix_full m n : forall p,
  List.length (cstr_prefix m p n) = n -> cstr_prefix m p n = map m (span p n).
Proof.
  induction n as [| n IH]; intros p H; [reflexivity |].
  rewrite span_S. cbn [cstr_prefix map] in *.
  destruct (_ =? 0); [discriminate H |].
  cbn in H. f_equal. apply IH. lia.
Qed.

Lemma cstr_prefix_full_inv m n : forall p l,
  cstr_prefix m p n = l -> List.length l = n -> l = map m (span p n).
Proof. intros p l <- H. apply cstr_prefix_full, H. Qed.

Lemma strnlen_S m n : forall p,
  strnlen m p (S n) = S n -> strnlen m p n = n.
Proof.
  unfold strnlen. induction n as [| n IH]; intros p H; [reflexivity |].
  cbn [cstr_prefix] in *. cbv zeta in *.
  destruct (byte.unsigned (m (ptr_add p 0)) =? 0); [discriminate H |].
  cbn [List.length] in *. f_equal. apply IH.
  destruct (byte.unsigned (m (ptr_add (ptr_add p 1) 0)) =? 0); [discriminate H |].
  cbn [List.length] in *. lia.
Qed.

Lemma cstr_prefix_same_bytes m n : forall s1 s2,
  map m (span s1 n) = map m (span s2 n) ->
  cstr_prefix m s1 n = cstr_prefix m s2 n.
Proof.
  induction n as [| n IH]; intros s1 s2 E; [reflexivity |].
  rewrite !span_S in E. cbn [map] in E. injection E as E0 E.
  cbn [cstr_prefix]. cbv zeta. rewrite E0.
  destruct (_ =? 0); [reflexivity |]. f_equal. apply IH, E.
Qed.

(** With eight characters before any terminator on the left, [strncmp]
    over eight characters is equality of the eight bytes. *)
Lemma strncmp_full_iff m s1 s2 :
  strnlen m s1 8 = 8%nat ->
  result (strncmp s1 s2 8) m = 0 <-> map m (span s1 8) = map m (span s2 8).
Proof.
  intros H. rewrite strncmp_zero_iff. split.
  - intros E. pose proof (cstr_prefix_full m 8 s1 H) as F. rewrite E in F.
    apply (cstr_prefix_full_inv m 8 s2 _ F).
    unfold span. rewrite !length_map, length_seq. reflexivity.
  - apply cstr_prefix_same_bytes.
Qed.

(** ** The loop over the section table *)

Lemma loop_result m dosHeader sectionName : forall remaining section,
  result (sml_findSection_loop dosHeader sectionName remaining section) m
  = first_match m (name_matches m sectionName) dosHeader section remaining.
Proof.
  induction remaining as [| k IH]; intros section; [reflexivity |].
  unfold first_match in *. cbn [sml_findSection_loop section_table find].
  unfold eligible, name_matches, entry_start, entry_size,
    entry_VirtualAddress, entry_VirtualSize, entry_SizeOfRawData.
  rewrite result_bind.
  destruct (result (load_u32 (ptr_add section offsetof_VirtualAddress)) m =? 0);
    cbn [negb andb]; [apply IH |].
  rewrite !result_bind.
  destruct (ptr_add dosHeader _ =? 0); cbn [negb andb]; [apply IH |].
  destruct (0 <? Z.min _ _); cbn [andb]; [| apply IH].
  rewrite result_bind.
  destruct (result (strncmp _ _ _) m =? 0); [reflexivity | apply IH].
Qed.

(** The whole function, as the three header checks and then the scan. *)
Lemma findSection_result m image sectionName :
  result (sml_findSection image sectionName) m
  = walk m (name_matches m sectionName) image.
Proof.
  unfold walk, sml_findSection, nt_signature, section_count, first_section, nt_header,
    dos_e_lfanew.
  rewrite result_bind.
  destruct (_ <=? 0); [reflexivity |].
  destruct (ptr_add _ _ =? 0); [reflexivity |].
  rewrite result_bind.
  destruct (negb _); [reflexivity |].
  rewrite !result_bind. apply loop_result.
Qed.

(** A found section comes from an entry of the table that is eligible and
    whose name matches, and no earlier entry is such. *)
Lemma first_match_found m matches dosHeader : forall count section s,
  first_match m matches dosHeader section count = Found s ->
  exists i, (i < count)%nat
    /\ (let e := nth i (section_table section count) 0 in
        eligible m dosHeader e = true /\ matches e = true
        /\ s = mkSection (entry_start m dosHeader e) (entry_size m e))
    /\ (forall j, (j < i)%nat ->
        let e := nth j (section_table section count) 0 in
        eligible m dosHeader e && matches e = false).
Proof.
  unfold first_match.
  induction count as [| k IH]; intros section s H; [discriminate H |].
  cbn [section_table find] in H.
  destruct (eligible m dosHeader section && matches section) eqn:E.
  - exists O. cbn [section_table nth]. apply andb_prop in E as [E1 E2].
    injection H as <-. repeat split; auto; try lia.
  - destruct (IH _ _ H) as (i & Hi & Hfound & Hfirst).
    exists (S i). cbn [section_table nth]. repeat split; try lia; try apply Hfound.
    intros [| j] Hj; [exact E | apply Hfirst; lia].
Qed.

Lemma first_match_not_found m matches dosHeader : forall count section,
  first_match m matches dosHeader section count = SectionNotFound <->
  (forall e, In e (section_table section count) ->
     eligible m dosHeader e && matches e = false).
Proof.
  intros count section. unfold first_match.
  destruct (find _ _) as [e |] eqn:F; split; intros H; try discriminate H; try reflexivity.
  - apply find_some in F as [Hin Ht]. rewrite (H e Hin) in Ht. discriminate Ht.
  - intros e Hin. exact (find_none _ _ F e Hin).
Qed.

Lemma first_match_ext m f g dosHeader : forall count section,
  (forall e, In e (section_table section count) -> f e = g e) ->
  first_match m f dosHeader section count = first_match m g dosHeader section count.
Proof.
  unfold first_match.
  induction count as [| k IH]; intros section H; [reflexivity |].
  cbn [section_table find]. rewrite (H section) by (left; reflexivity).
  destruct (eligible m dosHeader section && g section); [reflexivity |].
  apply IH. intros e He. apply H. right. exact He.
Qed.

Lemma first_match_never_invalid m matches dosHeader section count :
  first_match m matches dosHeader section count <> InvalidImageFormat.
Proof. unfold first_match. destruct (find _ _); discriminate. Qed.

Lemma section_table_nth section : forall count i,
  (i < count)%nat -> valid_ptr section ->
  nth i (section_table section count) 0
  = ptr_add section (sizeof_IMAGE_SECTION_HEADER * Z.of_nat i).
Proof.
  intros count. revert section.
  induction count as [| k IH]; intros section i Hi Hv; [lia |].
  destruct i as [| i]; cbn [section_table nth].
  - rewrite Z.mul_0_r. symmetry. apply ptr_add_0_valid, Hv.
  - rewrite IH by (try lia; apply ptr_add_valid).
    rewrite ptr_add_ptr_add. f_equal. lia.
Qed.

Lemma walk_found m matches image s :
  walk m matches image = Found s ->
  headers_valid m image
  /\ first_match m matches (base image) (first_section m image)
       (section_count m image) = Found s.
Proof.
  unfold walk, headers_valid.
  destruct (Z.leb_spec (dos_e_lfanew m image) 0); [discriminate |].
  destruct (Z.eqb_spec (nt_header m image) 0); [discriminate |].
  destruct (Z.eqb_spec (nt_signature m image) IMAGE_NT_SIGNATURE);
    cbn [negb]; [| discriminate].
  auto.
Qed.

Lemma walk_ext m f g image :
  (forall e, f e = g e) -> walk m f image = walk m g image.
Proof.
  intros H. unfold walk.
  rewrite (first_match_ext m f g) by (intros; apply H). reflexivity.
Qed.

Lemma walk_invalid_iff m matches image :
  walk m matches image = InvalidImageFormat <->
  dos_e_lfanew m image <= 0
  \/ nt_header m image = 0
  \/ nt_signature m image <> IMAGE_NT_SIGNATURE.
Proof.
  unfold walk.
  destruct (Z.leb_spec (dos_e_lfanew m image) 0); [tauto |].
  destruct (Z.eqb_spec (nt_header m image) 0); [tauto |].
  destruct (Z.eqb_spec (nt_signature m image) IMAGE_NT_SIGNATURE); cbn [negb].
  - split; [intros F; apply first_match_never_invalid in F; contradiction |].
    intros [? | [? | ?]]; [lia | contradiction | contradiction].
  - tauto.
Qed.

Lemma first_section_valid m image : valid_ptr (first_section m image).
Proof.
  unfold first_section, IMAGE_FIRST_SECTION.
  rewrite result_bind, result_ret. apply ptr_add_valid.
Qed.

(** The [i]-th entry the walk looks at lies [i] section headers after the
    first. *)
Lemma entry_address m image i :
  (i < section_count m image)%nat ->
  nth i (section_table (first_section m image) (section_count m image)) 0
  = ptr_add (first_section m image) (sizeof_IMAGE_SECTION_HEADER * Z.of_nat i).
Proof.
  intros Hi. apply section_table_nth; [exact Hi | apply first_section_valid].
Qed.

(** What is known of a section that was found. *)
Lemma eligible_facts m dosHeader e :
  eligible m dosHeader e = true ->
  0 < entry_VirtualAddress m e < 2 ^ 32
  /\ entry_start m dosHeader e <> 0
  /\ 0 < entry_size m e < 2 ^ 32.
Proof.
  unfold eligible. intros H.
  apply andb_prop in H as [H Hsz]. apply andb_prop in H as [Hva Hst].
  apply negb_true_iff, Z.eqb_neq in Hva.
  apply negb_true_iff, Z.eqb_neq in Hst.
  apply Z.ltb_lt in Hsz.
  pose proof (load_u32_range (ptr_add e offsetof_VirtualAddress) m) as R1.
  pose proof (load_u32_range (ptr_add e offsetof_VirtualSize) m) as R2.
  pose proof (load_u32_range (ptr_add e offsetof_SizeOfRawData) m) as R3.
  unfold entry_size, entry_VirtualAddress, entry_VirtualSize, entry_SizeOfRawData in *.
  repeat split; try assumption; lia.
Qed.

(** Adding a nonzero 32-bit offset never gives the pointer back. *)
Lemma ptr_add_moves p off :
  valid_ptr p -> 0 < off < 2 ^ 32 -> ptr_add p off <> p.
Proof.
  unfold valid_ptr, ptr_add, uintptr_wrap, uintptr_bits. intros Hp Ho E.
  change (2 ^ 64) with 18446744073709551616 in *.
  change (2 ^ 32) with 4294967296 in *.
  pose proof (Z.div_mod (p + off) 18446744073709551616 ltac:(lia)) as D.
  pose proof (Z.mod_pos_bound (p + off) 18446744073709551616 ltac:(lia)) as B.
  assert (0 <= (p + off) / 18446744073709551616 <= 1) as Q.
  { split; [apply Z.div_pos; lia |].
    apply Z.lt_succ_r, Z.div_lt_upper_bound; lia. }
  lia.
Qed.

(** ** The name comparison of [sml_findSection] *)

(** C1, as stated, fails: the entry's name field is "TEST\0DAT", the
    requested name is "TEST" followed by null bytes; the two 8-byte fields
    differ after the first null, and [sml_findSection] reports the entry. *)
Lemma embedded_nul_compares_equal :
  result (sml_findSection sample_image sample_name_ptr) embedded_nul_memory
    = Found (mkSection 0x12000 0x30)
  /\ section_count embedded_nul_memory sample_image = 1%nat
  /\ name_matches embedded_nul_memory sample_name_ptr
       (first_section embedded_nul_memory sample_image) = true
  /\ result (load_bytes sample_name_ptr 8) embedded_nul_memory
     <> entry_Name embedded_nul_memory (first_section embedded_nul_memory sample_image).
Proof.
  split; [vm_compute; reflexivity |].
  split; [vm_compute; reflexivity |].
  split; [vm_compute; reflexivity |].
  intros H. vm_compute in H. discriminate H.
Qed.

(** C1, amended: the comparison is [strncmp] bounded by 8.  Two names
    compare equal exactly when they agree up to the first null character,
    or over all 8 bytes when there is none; no byte beyond the eighth of
    either name is read; and a section that is found is an entry of the
    table whose name agrees with the request in that sense. *)
Theorem findSection_compares_up_to_nul m image sectionName :
  (forall section,
     name_matches m sectionName section = true <->
     cstr_prefix m sectionName 8
       = cstr_prefix m (ptr_add section offsetof_Name) 8)
  /\ (forall section,
        Forall (fun a => In a (span sectionName 8)
                         \/ In a (span (ptr_add section offsetof_Name) 8))
          (trace (strncmp sectionName (ptr_add section offsetof_Name)
                    IMAGE_SIZEOF_SHORT_NAME) m))
  /\ (forall s,
        result (sml_findSection image sectionName) m = Found s ->
        exists i, (i < section_count m image)%nat
          /\ let e := nth i (section_table (first_section m image)
                               (section_count m image)) 0 in
             s = mkSection (entry_start m (base image) e) (entry_size m e)
             /\ cstr_prefix m sectionName 8
                = cstr_prefix m (ptr_add e offsetof_Name) 8).
Proof.
  split; [| split].
  - intros section. unfold name_matches. rewrite Z.eqb_eq.
    apply strncmp_zero_iff.
  - intros section. apply strncmp_trace.
  - intros s H. rewrite findSection_result in H.
    apply walk_found in H as [_ H].
    apply first_match_found in H as (i & Hi & (_ & Hm & Hs) & _).
    exists i. split; [exact Hi |]. split; [exact Hs |].
    unfold name_matches in Hm. apply Z.eqb_eq in Hm.
    apply strncmp_zero_iff in Hm. exact Hm.
Qed.

Lemma findSection_compares_up_to_nul_witness :
  exists i, (i < section_count embedded_nul_memory sample_image)%nat
    /\ let e := nth i (section_table (first_section embedded_nul_memory sample_image)
                         (section_count embedded_nul_memory sample_image)) 0 in
       mkSection 0x12000 0x30
         = mkSection (entry_start embedded_nul_memory (base sample_image) e)
                     (entry_size embedded_nul_memory e)
       /\ cstr_prefix embedded_nul_memory sample_name_ptr 8
          = cstr_prefix embedded_nul_memory (ptr_add e offsetof_Name) 8.
Proof.
  apply (proj2 (proj2 (findSection_compares_up_to_nul
                         embedded_nul_memory sample_image sample_name_ptr))).
  vm_compute. reflexivity.
Defined.

(** ** Names of more than eight characters *)

(** C2, as stated, fails: the requested name "TESTDATAX" has nine
    characters, the entry's name field is "TESTDATA", and the entry is
    reported. *)
Lemma nine_characters_match_eight :
  strnlen long_name_memory sample_name_ptr 9 = 9%nat
  /\ entry_Name long_name_memory (first_section long_name_memory sample_image)
     = list_byte_of_string "TESTDATA"
  /\ result (sml_findSection sample_image sample_name_ptr) long_name_memory
     = Found (mkSection 0x12000 0x30).
Proof. repeat split; vm_compute; reflexivity. Qed.

Lemma name_equals_iff m sectionName section :
  name_equals m sectionName section = true <->
  map m (span sectionName 8) = map m (span (ptr_add section offsetof_Name) 8).
Proof.
  unfold name_equals, entry_Name, result, load_bytes. cbn [fst].
  change IMAGE_SIZEOF_SHORT_NAME with 8%nat.
  destruct (list_eq_dec _ _ _); split; auto; discriminate.
Qed.

(** C2, amended: of a requested name longer than 8 bytes only the first 8
    take part.  The walk then is the walk that compares all eight bytes of
    each name field with the first eight bytes of the request: the first
    eligible entry whose field equals them is reported, and not-found is
    the result when there is none. *)
Theorem findSection_long_name_uses_first_eight m image sectionName :
  strnlen m sectionName 9 = 9%nat ->
  result (sml_findSection image sectionName) m
  = walk m (name_equals m sectionName) image.
Proof.
  intros H. apply strnlen_S in H.
  rewrite findSection_result. apply walk_ext. intros e.
  apply eq_true_iff_eq. rewrite name_equals_iff.
  unfold name_matches. rewrite Z.eqb_eq.
  apply strncmp_full_iff, H.
Qed.

Lemma findSection_long_name_uses_first_eight_witness :
  result (sml_findSection sample_image sample_name_ptr) long_name_memory
  = walk long_name_memory (name_equals long_name_memory sample_name_ptr) sample_image.
Proof.
  apply findSection_long_name_uses_first_eight.
  vm_compute. reflexivity.
Defined.

(** ** The section that is returned *)

Lemma findSection_found m image sectionName s :
  result (sml_findSection image sectionName) m = Found s ->
  exists i, (i < section_count m image)%nat
    /\ let e := nth i (section_table (first_section m image)
                         (section_count m image)) 0 in
       eligible m (base image) e = true
       /\ name_matches m sectionName e = true
       /\ s = mkSection (entry_start m (base image) e) (entry_size m e).
Proof.
  intros H. rewrite findSection_result in H.
  apply walk_found in H as [_ H].
  apply first_match_found in H as (i & Hi & Hfound & _).
  exists i. split; [exact Hi | exact Hfound].
Qed.




(** ** First match in table order *)

(** C4: for an image whose DOS header and NT signature pass the checks,
    [sml_findSection] gives what the scan of the spec gives: over the
    entries in table order up to the declared count, the [(start, size)],
    with size the smaller of the virtual size and the raw-data size, of the
    first entry with nonzero relative virtual address, non-null start, size
    above zero and matching name, and not-found when no entry is such. *)
Theorem findSection_returns_first_match m image sectionName :
  headers_valid m image ->
  result (sml_findSection image sectionName) m
  = first_match m (name_matches m sectionName) (base image)
      (first_section m image) (section_count m image).
Proof.
  intros (Hoffset & Hnt & Hsig).
  rewrite findSection_result. unfold walk.
  destruct (Z.leb_spec (dos_e_lfanew m image) 0) as [Hle | _]; [lia |].
  destruct (Z.eqb_spec (nt_header m image) 0) as [Hnull | _]; [contradiction |].
  rewrite Hsig, Z.eqb_refl. reflexivity.
Qed.

Lemma findSection_returns_first_match_witness :
  headers_valid sample_memory sample_image
  /\ result (sml_findSection sample_image sample_name_ptr) sample_memory
     = first_match sample_memory (name_matches sample_memory sample_name_ptr)
         (base sample_image) (first_section sample_memory sample_image)
         (section_count sample_memory sample_image).
Proof.
  assert (headers_valid sample_memory sample_image) as V.
  { unfold headers_valid. repeat split; try (vm_compute; reflexivity).
    intros H. vm_compute in H. discriminate H. }
  split; [exact V |].
  apply (findSection_returns_first_match sample_memory sample_image sample_name_ptr V).
Defined.

(** ** What is read of a malformed image *)

Lemma span_in_range p k n a :
  valid_ptr p -> 0 <= k -> k + 4 <= n -> p + n <= 2 ^ uintptr_bits ->
  In a (span (ptr_add p k) 4) -> in_mapped_range p n a.
Proof.
  intros Hp Hk Hn Hfit Ha. apply In_span in Ha as (i & Hi & ->).
  rewrite ptr_add_ptr_add. unfold ptr_add, uintptr_wrap, in_mapped_range, valid_ptr in *.
  rewrite Z.mod_small; lia.
Qed.

Lemma findSection_trace_nonpositive m image sectionName :
  dos_e_lfanew m image <= 0 ->
  trace (sml_findSection image sectionName) m
  = span (ptr_add (base image) offsetof_e_lfanew) 4.
Proof.
  unfold dos_e_lfanew, sml_findSection. intros H.
  rewrite trace_bind, trace_load_i32.
  apply Z.leb_le in H. rewrite H. rewrite trace_ret. apply app_nil_r.
Qed.

(** In a buffer of zeros that holds a DOS header the offset field is zero. *)
Lemma zero_buffer_offset image n rest :
  valid_ptr (base image) ->
  (Z.to_nat sizeof_IMAGE_DOS_HEADER <= n)%nat ->
  base image + Z.of_nat n <= 2 ^ uintptr_bits ->
  dos_e_lfanew (place (base image) (zeros n) rest) image = 0.
Proof.
  intros Hp Hn Hfit.
  assert (forall a, In a (span (ptr_add (base image) offsetof_e_lfanew) 4) ->
                    place (base image) (zeros n) rest a = Byte.x00) as Hz.
  { intros a Ha.
    apply (span_in_range _ _ (Z.of_nat n)) in Ha;
      try assumption; unfold offsetof_e_lfanew; try lia.
    2:{ change sizeof_IMAGE_DOS_HEADER with 64 in Hn. lia. }
    unfold in_mapped_range in Ha. unfold place, zeros.
    rewrite repeat_length.
    destruct (Z.leb_spec (base image) a); [| lia].
    destruct (Z.ltb_spec a (base image + Z.of_nat n)); [| lia].
    cbn [andb]. apply nth_repeat. }
  unfold dos_e_lfanew, load_i32, load_u32.
  rewrite !result_bind, !result_ret.
  unfold result, load_bytes. cbn [fst].
  rewrite (map_ext_in _ (fun _ => Byte.x00) _ Hz).
  reflexivity.
Qed.

Lemma findSection_trace_null_nt_header m image sectionName :
  0 < dos_e_lfanew m image -> nt_header m image = 0 ->
  trace (sml_findSection image sectionName) m
  = span (ptr_add (base image) offsetof_e_lfanew) 4.
Proof.
  unfold nt_header, dos_e_lfanew, sml_findSection. intros H N.
  rewrite trace_bind, trace_load_i32.
  apply Z.leb_gt in H. rewrite H.
  apply Z.eqb_eq in N. rewrite N. rewrite trace_ret. apply app_nil_r.
Qed.

Lemma findSection_trace_bad_signature m image sectionName :
  0 < dos_e_lfanew m image -> nt_header m image <> 0 ->
  nt_signature m image <> IMAGE_NT_SIGNATURE ->
  trace (sml_findSection image sectionName) m
  = span (ptr_add (base image) offsetof_e_lfanew) 4
    ++ span (ptr_add (nt_header m image) offsetof_Signature) 4.
Proof.
  unfold nt_signature, nt_header, dos_e_lfanew, sml_findSection. intros H N S.
  rewrite trace_bind, trace_load_i32.
  apply Z.leb_gt in H. rewrite H.
  apply Z.eqb_neq in N. rewrite N.
  rewrite trace_bind, trace_load_u32.
  apply Z.eqb_neq in S. rewrite S. cbn [negb].
  rewrite trace_ret, app_nil_r. reflexivity.
Qed.

(** C6, as stated, fails.  First image: a DOS header of 64 bytes, the only
    bytes mapped, whose offset field is 64; it is rejected, after the four
    bytes behind the header were read as the NT signature.  Second image:
    one mapped page whose headers pass both checks and declare an optional
    header of 0xFFFF bytes; the entry of the section table is read sixteen
    pages behind the base, and the result is not-found. *)
Lemma malformed_image_read_past_header :
  (result (sml_findSection sample_image sample_name_ptr) lone_dos_header_memory
     = InvalidImageFormat
   /\ Z.of_nat (List.length lone_dos_header) = sizeof_IMAGE_DOS_HEADER
   /\ ~ Forall (in_mapped_range (base sample_image) sizeof_IMAGE_DOS_HEADER)
          (trace (sml_findSection sample_image sample_name_ptr)
             lone_dos_header_memory))
  /\ (result (sml_findSection sample_image sample_name_ptr) far_table_memory
        = SectionNotFound
      /\ ~ Forall (in_mapped_range (base sample_image) 4096)
             (trace (sml_findSection sample_image sample_name_ptr)
                far_table_memory)).
Proof.
  split; [split; [| split] | split]; try (vm_compute; reflexivity).
  - intros H. rewrite Forall_forall in H.
    specialize (H 0x10040).
    assert (In 0x10040
              (trace (sml_findSection sample_image sample_name_ptr)
                 lone_dos_header_memory)) as Hin.
    { vm_compute. tauto. }
    apply H in Hin. unfold in_mapped_range in Hin. cbn in Hin. lia.
  - intros H. rewrite Forall_forall in H.
    specialize (H 0x20063).
    assert (In 0x20063
              (trace (sml_findSection sample_image sample_name_ptr)
                 far_table_memory)) as Hin.
    { vm_compute. tauto. }
    apply H in Hin. unfold in_mapped_range in Hin. cbn in Hin. lia.
Qed.

(** C6, amended: an image that is rejected as invalid is rejected after
    reading the four bytes of the new-header offset field of the DOS header
    and, when that offset is positive and base + offset is not null, the four
    bytes of the signature field at base + offset, and nothing else.  For an
    image whose offset is not strictly positive, as in a buffer of zeros,
    only the offset field is read, and it lies inside any mapping that holds
    the 64 bytes of the DOS header.  The address base + offset is not
    compared with any extent of the image. *)
Theorem findSection_invalid_format_reads m image sectionName :
  let run := sml_findSection image sectionName m in
  let offset_field := span (ptr_add (base image) offsetof_e_lfanew) 4 in
  (dos_e_lfanew m image <= 0 ->
     run = (InvalidImageFormat, offset_field)
     /\ forall n,
          valid_ptr (base image) ->
          sizeof_IMAGE_DOS_HEADER <= n ->
          base image + n <= 2 ^ uintptr_bits ->
          Forall (in_mapped_range (base image) n) (snd run))
  /\ (0 < dos_e_lfanew m image -> nt_header m image = 0 ->
      run = (InvalidImageFormat, offset_field))
  /\ (0 < dos_e_lfanew m image -> nt_header m image <> 0 ->
      nt_signature m image <> IMAGE_NT_SIGNATURE ->
      run = (InvalidImageFormat,
             offset_field ++ span (ptr_add (nt_header m image) offsetof_Signature) 4)).
Proof.
  cbv zeta. split; [| split].
  - intros H.
    assert (sml_findSection image sectionName m
            = (InvalidImageFormat, span (ptr_add (base image) offsetof_e_lfanew) 4)) as R.
    { rewrite run_eq, findSection_trace_nonpositive by exact H.
      f_equal. rewrite findSection_result.
      apply walk_invalid_iff. left. exact H. }
    split; [exact R |].
    intros n Hp Hn Hfit. rewrite R. cbn [snd].
    apply Forall_forall. intros a Ha.
    apply (span_in_range (base image) offsetof_e_lfanew n); try assumption;
      unfold offsetof_e_lfanew, sizeof_IMAGE_DOS_HEADER in *; lia.
  - intros H N.
    rewrite run_eq, findSection_trace_null_nt_header by assumption.
    f_equal. rewrite findSection_result.
    apply walk_invalid_iff. right. left. exact N.
  - intros H N S.
    rewrite run_eq, findSection_trace_bad_signature by assumption.
    f_equal. rewrite findSection_result.
    apply walk_invalid_iff. right. right. exact S.
Qed.

Lemma findSection_invalid_format_reads_witness :
  dos_e_lfanew zero_buffer_memory sample_image <= 0
  /\ sml_findSection sample_image sample_name_ptr zero_buffer_memory
     = (InvalidImageFormat, span (ptr_add (base sample_image) offsetof_e_lfanew) 4)
  /\ Forall (in_mapped_range (base sample_image) 4096)
       (snd (sml_findSection sample_image sample_name_ptr zero_buffer_memory))
  /\ sml_findSection sample_image sample_name_ptr lone_dos_header_memory
     = (InvalidImageFormat,
        span (ptr_add (base sample_image) offsetof_e_lfanew) 4
        ++ span (ptr_add (nt_header lone_dos_header_memory sample_image)
                   offsetof_Signature) 4).
Proof.
  assert (dos_e_lfanew zero_buffer_memory sample_image <= 0) as H.
  { vm_compute. discriminate. }
  destruct (findSection_invalid_format_reads
              zero_buffer_memory sample_image sample_name_ptr) as (Hzero & _ & _).
  destruct (findSection_invalid_format_reads
              lone_dos_header_memory sample_image sample_name_ptr) as (_ & _ & Hsig).
  destruct (Hzero H) as [Hrun Hin].
  split; [exact H |]. split; [exact Hrun |]. split.
  - apply Hin.
    + unfold valid_ptr. vm_compute. split; [discriminate | reflexivity].
    + vm_compute. discriminate.
    + vm_compute. discriminate.
  - apply Hsig.
    + vm_compute. reflexivity.
    + intros E. vm_compute in E. discriminate E.
    + intros E. vm_compute in E. discriminate E.
Defined.

(** ** Invalid image format, for images a process can hold *)

(** Outside the addressable range the guard on the NT header pointer
    decides: with the DOS header in the last 64 bytes of the address space
    and [e_lfanew = 64] the pointer wraps to null, and the image is rejected
    without a look at the signature. *)
Lemma null_nt_header_is_invalid :
  result (sml_findSection top_image sample_name_ptr) top_memory = InvalidImageFormat
  /\ ~ (dos_e_lfanew top_memory top_image <= 0
        \/ nt_signature top_memory top_image <> IMAGE_NT_SIGNATURE)
  /\ ~ addressable_base top_image.
Proof.
  split; [vm_compute; reflexivity |]. split.
  - intros [H | H].
    + vm_compute in H. apply H. reflexivity.
    + apply H. vm_compute. reflexivity.
  - unfold addressable_base. intros [_ H]. vm_compute in H. apply H. reflexivity.
Qed.

Lemma signed32_range v : 0 <= v < 2 ^ 32 -> - 2 ^ 31 <= signed32 v < 2 ^ 31.
Proof.
  unfold signed32. change (2 ^ 32) with 4294967296. change (2 ^ 31) with 2147483648.
  intros H. destruct (Z.ltb_spec v 2147483648); lia.
Qed.

Lemma dos_e_lfanew_range m image : - 2 ^ 31 <= dos_e_lfanew m image < 2 ^ 31.
Proof.
  unfold dos_e_lfanew, load_i32. rewrite result_bind, result_ret.
  apply signed32_range, load_u32_range.
Qed.

(** For an addressable base and a positive offset the NT header pointer is
    base + offset, and it is not null. *)
Lemma nt_header_addressable m image :
  addressable_base image -> 0 < dos_e_lfanew m image ->
  nt_header m image = base image + dos_e_lfanew m image
  /\ nt_header m image <> 0.
Proof.
  unfold addressable_base, nt_header, ptr_add, uintptr_wrap, uintptr_bits.
  intros Hb He. pose proof (dos_e_lfanew_range m image) as R.
  change (2 ^ 64) with 18446744073709551616 in *.
  change (2 ^ 31) with 2147483648 in *.
  rewrite Z.mod_small by lia. lia.
Qed.

(** C5: for an image a process can hold, [sml_findSection] fails with
    "invalid image format" exactly when the new-header offset of the DOS
    header is not strictly positive, or the signature field of the NT header
    differs from the expected constant.  In every such case the failure is
    the returned value [false], with no section written; and it is reached
    without an access fault: when the offset field and, for a positive offset,
    the signature field lie in mapped memory, every address the rejected run
    loads is mapped. *)
Theorem findSection_invalid_format_iff m image sectionName :
  addressable_base image ->
  let o := result (sml_findSection image sectionName) m in
  (o = InvalidImageFormat <->
     dos_e_lfanew m image <= 0
     \/ nt_signature m image <> IMAGE_NT_SIGNATURE)
  /\ (o = InvalidImageFormat -> returned_bool o = false /\ outSection o = None)
  /\ (forall mapped : Z -> Prop,
        Forall mapped (span (ptr_add (base image) offsetof_e_lfanew) 4) ->
        (0 < dos_e_lfanew m image ->
         Forall mapped (span (ptr_add (nt_header m image) offsetof_Signature) 4)) ->
        o = InvalidImageFormat ->
        runs_without_fault mapped (sml_findSection image sectionName) m).
Proof.
  intros Hbase. cbv zeta.
  assert (result (sml_findSection image sectionName) m = InvalidImageFormat <->
          dos_e_lfanew m image <= 0
          \/ nt_signature m image <> IMAGE_NT_SIGNATURE) as Hiff.
  { rewrite findSection_result, walk_invalid_iff. split.
    - intros [H | [H | H]]; [left; exact H | | right; exact H].
      destruct (Z.leb_spec (dos_e_lfanew m image) 0) as [Hle | Hgt]; [left; exact Hle |].
      destruct (nt_header_addressable m image Hbase Hgt) as [_ Hnn]. contradiction.
    - intros [H | H]; [left; exact H | right; right; exact H]. }
  split; [exact Hiff |]. split.
  - intros ->. split; reflexivity.
  - intros mapped Hfield Hsig Hinvalid. unfold runs_without_fault.
    destruct (Z.leb_spec (dos_e_lfanew m image) 0) as [Hle | Hgt].
    + rewrite findSection_trace_nonpositive by exact Hle. exact Hfield.
    + destruct (nt_header_addressable m image Hbase Hgt) as [_ Hnn].
      apply Hiff in Hinvalid as [Hle | Hbad]; [lia |].
      rewrite findSection_trace_bad_signature by assumption.
      apply Forall_app. split; [exact Hfield | apply Hsig, Hgt].
Qed.

Lemma findSection_invalid_format_iff_witness :
  addressable_base sample_image
  /\ result (sml_findSection sample_image sample_name_ptr) lone_dos_header_memory
     = InvalidImageFormat
  /\ returned_bool
       (result (sml_findSection sample_image sample_name_ptr) lone_dos_header_memory)
     = false
  /\ runs_without_fault (in_mapped_range (base sample_image) 4096)
       (sml_findSection sample_image sample_name_ptr) lone_dos_header_memory.
Proof.
  assert (addressable_base sample_image) as Hbase.
  { unfold addressable_base. vm_compute. split; discriminate. }
  destruct (findSection_invalid_format_iff lone_dos_header_memory sample_image
              sample_name_ptr Hbase) as (Hiff & Hret & Hrun).
  assert (result (sml_findSection sample_image sample_name_ptr) lone_dos_header_memory
          = InvalidImageFormat) as Hinvalid.
  { apply Hiff. right. intros E. vm_compute in E. discriminate E. }
  split; [exact Hbase |]. split; [exact Hinvalid |].
  split; [apply Hret, Hinvalid |].
  apply Hrun; [| | exact Hinvalid].
  - apply Forall_forall. intros a Ha.
    apply (span_in_range (base sample_image) offsetof_e_lfanew 4096);
      [| | | | exact Ha]; vm_compute; try discriminate.
    split; [discriminate | reflexivity].
  - intros _. apply Forall_forall. intros a Ha.
    apply (span_in_range (base sample_image) 64 4096);
      [| | | | exact Ha]; vm_compute; try discriminate.
    split; [discriminate | reflexivity].
Defined.

(** ** Entries without a relative virtual address *)

(** C9: a section returned by [sml_findSection] is never one of an entry
    whose declared relative virtual address is zero: it is the section of
    an entry of the table whose address is nonzero and whose name matches,
    and every entry that would give the same start has a nonzero address. *)
Theorem findSection_skips_zero_rva m image sectionName s :
  result (sml_findSection image sectionName) m = Found s ->
  (exists i, (i < section_count m image)%nat
     /\ let e := nth i (section_table (first_section m image)
                          (section_count m image)) 0 in
        entry_VirtualAddress m e <> 0
        /\ name_matches m sectionName e = true
        /\ s = mkSection (entry_start m (base image) e) (entry_size m e))
  /\ (forall e, valid_ptr (base image) ->
        start s = entry_start m (base image) e ->
        entry_VirtualAddress m e <> 0).
Proof.
  intros H. apply findSection_found in H as (i & Hi & He & Hm & ->).
  pose proof (eligible_facts _ _ _ He) as (Hva & _ & _).
  split.
  - exists i. split; [exact Hi |]. cbv zeta. repeat split; try assumption. lia.
  - cbn [start]. intros e Hp E Z0. unfold entry_start in E. rewrite Z0 in E.
    rewrite (ptr_add_0_valid _ Hp) in E.
    revert E. apply ptr_add_moves; assumption.
Qed.

Lemma findSection_skips_zero_rva_witness :
  entry_VirtualAddress placeholder_memory
    (first_section placeholder_memory sample_image) = 0
  /\ name_matches placeholder_memory sample_name_ptr
       (first_section placeholder_memory sample_image) = true
  /\ exists i, (i < section_count placeholder_memory sample_image)%nat
     /\ let e := nth i (section_table (first_section placeholder_memory sample_image)
                          (section_count placeholder_memory sample_image)) 0 in
        entry_VirtualAddress placeholder_memory e <> 0
        /\ name_matches placeholder_memory sample_name_ptr e = true
        /\ mkSection 0x13000 0x50
           = mkSection (entry_start placeholder_memory (base sample_image) e)
                       (entry_size placeholder_memory e).
Proof.
  split; [vm_compute; reflexivity |].
  split; [vm_compute; reflexivity |].
  apply (proj1 (findSection_skips_zero_rva placeholder_memory sample_image
                  sample_name_ptr (mkSection 0x13000 0x50) eq_refl)).
Defined.

(** ** Enumeration *)

Example crowded_process_truncated :
  sml_enumerateImages crowded_process never_stop O = 1024%nat.
Proof. vm_compute. reflexivity. Qed.

Example failing_process_not_visited :
  sml_enumerateImages failing_process never_stop O = O.
Proof. vm_compute. reflexivity. Qed.

Lemma SMLImage_new_base p h : base (SMLImage_new p h) = h.
Proof. unfold SMLImage_new. destruct (_ =? _)%nat; reflexivity. Qed.

(** The logging visitor behaves as the visitor, and logs [visits]. *)
Lemma loop_logged {C} p (body : SMLImageEnumerator C) : forall hs context log,
  sml_enumerateImages_loop p (logged body) hs (context, log)
  = (sml_enumerateImages_loop p body hs context,
     log ++ visits p body hs context).
Proof.
  induction hs as [| h rest IH]; intros context log.
  - cbn. rewrite app_nil_r. reflexivity.
  - cbn [sml_enumerateImages_loop visits]. unfold logged at 1. cbn [fst snd].
    destruct (body (SMLImage_new p h) context) as [stop context']. cbn [fst snd].
    destruct stop.
    + reflexivity.
    + rewrite IH, <- app_assoc. reflexivity.
Qed.

Lemma enumerate_logged {C} p (body : SMLImageEnumerator C) context :
  sml_enumerateImages p (logged body) (context, [])
  = (sml_enumerateImages p body context, visits p body (snapshot p) context).
Proof.
  unfold sml_enumerateImages, snapshot.
  destruct (EnumProcessModules p _) as [[hModules byteCountNeeded] |].
  - rewrite loop_logged. reflexivity.
  - reflexivity.
Qed.

Lemma invocations_visits {C} p (body : SMLImageEnumerator C) context :
  invocations p body context = visits p body (snapshot p) context.
Proof. unfold invocations. rewrite enumerate_logged. reflexivity. Qed.

Lemma visits_prefix {C} p (body : SMLImageEnumerator C) : forall hs context,
  exists rest, hs = map visited_base (visits p body hs context) ++ rest.
Proof.
  induction hs as [| h tl IH]; intros context.
  - exists []. reflexivity.
  - cbn [visits map]. unfold visited_base at 1. cbn [fst].
    rewrite SMLImage_new_base.
    destruct (fst (body (SMLImage_new p h) context)).
    + exists tl. reflexivity.
    + destruct (IH (snd (body (SMLImage_new p h) context))) as [rest Hrest].
      exists rest. cbn [app]. f_equal. exact Hrest.
Qed.

Lemma visits_stop_is_last {C} p (body : SMLImageEnumerator C) : forall hs context,
  Forall (fun call => set_stop call = false) (removelast (visits p body hs context)).
Proof.
  induction hs as [| h tl IH]; intros context.
  - constructor.
  - cbn [visits].
    destruct (fst (body (SMLImage_new p h) context)) eqn:E.
    + constructor.
    + specialize (IH (snd (body (SMLImage_new p h) context))).
      destruct (visits p body tl _) as [| c cs] eqn:V.
      * constructor.
      * change (removelast ((SMLImage_new p h, false) :: c :: cs))
          with ((SMLImage_new p h, false) :: removelast (c :: cs)).
        constructor; [reflexivity | exact IH].
Qed.

Lemma visits_all_without_stop {C} p (body : SMLImageEnumerator C) : forall hs context,
  Forall (fun call => set_stop call = false) (visits p body hs context) ->
  map visited_base (visits p body hs context) = hs.
Proof.
  induction hs as [| h tl IH]; intros context H; [reflexivity |].
  cbn [visits map] in *. unfold visited_base at 1. cbn [fst].
  rewrite SMLImage_new_base. f_equal.
  inversion H as [| c cs Hc Hcs]; subst. unfold set_stop in Hc. cbn [snd] in Hc.
  rewrite Hc in *. apply IH, Hcs.
Qed.

Lemma visits_images {C} p (body : SMLImageEnumerator C) : forall hs context,
  Forall (fun call => fst call = SMLImage_new p (visited_base call))
         (visits p body hs context).
Proof.
  induction hs as [| h tl IH]; intros context; [constructor |].
  cbn [visits]. constructor.
  - unfold visited_base. cbn [fst]. rewrite SMLImage_new_base. reflexivity.
  - destruct (fst (body (SMLImage_new p h) context)); [constructor | apply IH].
Qed.

Lemma NoDup_prefix {A} (l1 l2 : list A) : NoDup (l1 ++ l2) -> NoDup l1.
Proof.
  induction l1 as [| a l1 IH]; intros H; [constructor |].
  inversion H as [| ? ? Hn Hd]; subst. constructor.
  - intros Hin. apply Hn, in_or_app. left. exact Hin.
  - apply IH, Hd.
Qed.

(** The buffer holds the first 1024 modules; the count never exceeds what
    was stored. *)
Lemma snapshot_prefix p :
  exists k, snapshot p = firstn k (firstn (Z.to_nat hModules_size) (loaded_modules p)).
Proof.
  unfold snapshot, EnumProcessModules.
  destruct (enumeration_succeeds p).
  - eexists. change (hModules_size * sizeof_HMODULE / sizeof_HMODULE) with hModules_size.
    reflexivity.
  - exists O. reflexivity.
Qed.

Lemma snapshot_whole p :
  enumeration_succeeds p = true ->
  (List.length (loaded_modules p) <= Z.to_nat hModules_size)%nat ->
  snapshot p = loaded_modules p.
Proof.
  intros Hok Hlen. unfold snapshot, EnumProcessModules. rewrite Hok.
  change (hModules_size * sizeof_HMODULE / sizeof_HMODULE) with hModules_size.
  change (Z.to_nat hModules_size) with 1024%nat in *.
  rewrite (firstn_all2 (n := 1024)) by exact Hlen.
  apply firstn_all2.
  unfold DWORD_wrap, sizeof_HMODULE, hModules_size.
  change (2 ^ 32) with 4294967296.
  rewrite (Z.mod_small (_ * 8)) by lia.
  rewrite Z.div_mul by lia.
  rewrite Z.mod_small by lia.
  lia.
Qed.

(** C7: the visitor is invoked on the images of the modules of the snapshot,
    in the snapshot's order and once per entry, each image constructed from
    its handle; an invocation that sets the stop flag is the last one; when
    no invocation sets it every module of the snapshot is visited; distinct
    modules are visited once each.  The snapshot is the operating system's
    list when it fits the buffer. *)
Theorem enumerateImages_visits_in_order_until_stop
    {C} (p : Process) (body : SMLImageEnumerator C) (context : C) :
  let calls := invocations p body context in
  (exists rest, snapshot p = map visited_base calls ++ rest)
  /\ Forall (fun call => fst call = SMLImage_new p (visited_base call)) calls
  /\ Forall (fun call => set_stop call = false) (removelast calls)
  /\ (Forall (fun call => set_stop call = false) calls ->
      map visited_base calls = snapshot p)
  /\ (NoDup (snapshot p) -> NoDup (map visited_base calls))
  /\ (enumeration_succeeds p = true ->
      (List.length (loaded_modules p) <= Z.to_nat hModules_size)%nat ->
      snapshot p = loaded_modules p)
  /\ fst (sml_enumerateImages p (logged body) (context, []))
     = sml_enumerateImages p body context.
Proof.
  cbv zeta. rewrite invocations_visits.
  split; [apply visits_prefix |].
  split; [apply visits_images |].
  split; [apply visits_stop_is_last |].
  split; [apply visits_all_without_stop |].
  split.
  - intros Hnd.
    destruct (visits_prefix p body (snapshot p) context) as [rest Hrest].
    rewrite Hrest in Hnd at 1. apply NoDup_prefix in Hnd.
    exact Hnd.
  - split; [apply snapshot_whole |].
    rewrite enumerate_logged. reflexivity.
Qed.

Lemma enumerateImages_visits_in_order_until_stop_witness :
  map visited_base (invocations sample_process (stop_at 0x20000) O) = [0x10000; 0x20000]
  /\ map set_stop (invocations sample_process (stop_at 0x20000) O) = [false; true]
  /\ map visited_base (invocations sample_process never_stop O)
     = loaded_modules sample_process.
Proof.
  split; [vm_compute; reflexivity |].
  split; [vm_compute; reflexivity |].
  destruct (enumerateImages_visits_in_order_until_stop sample_process never_stop O)
    as (_ & _ & _ & Hall & _ & Hwhole & _).
  rewrite <- Hwhole.
  - apply Hall. vm_compute. repeat constructor.
  - reflexivity.
  - vm_compute. lia.
Defined.

(** C8: when the query of the module list fails the visitor is not invoked
    and the context is left as it was, with nothing that reports the
    failure; in every case the modules visited are a leading part of the
    first 1024 modules of the process, so at most 1024 invocations take
    place and the modules beyond are dropped without notice. *)
Theorem enumerateImages_silent_failure_and_truncation
    {C} (p : Process) (body : SMLImageEnumerator C) (context : C) :
  (enumeration_succeeds p = false ->
     invocations p body context = []
     /\ sml_enumerateImages p body context = context)
  /\ (exists rest,
        firstn (Z.to_nat hModules_size) (loaded_modules p)
        = map visited_base (invocations p body context) ++ rest)
  /\ (List.length (invocations p body context) <= Z.to_nat hModules_size)%nat.
Proof.
  assert (exists rest,
            firstn (Z.to_nat hModules_size) (loaded_modules p)
            = map visited_base (invocations p body context) ++ rest) as Hpre.
  { rewrite invocations_visits.
    destruct (snapshot_prefix p) as [k Hk].
    destruct (visits_prefix p body (snapshot p) context) as [rest Hrest].
    exists (rest ++ skipn k (firstn (Z.to_nat hModules_size) (loaded_modules p))).
    rewrite app_assoc, <- Hrest, Hk. symmetry. apply firstn_skipn. }
  split; [| split; [exact Hpre |]].
  - intros Hfail. unfold invocations, sml_enumerateImages, EnumProcessModules.
    rewrite Hfail. split; reflexivity.
  - destruct Hpre as [rest Hrest].
    apply (f_equal (@List.length _)) in Hrest.
    rewrite length_app, length_map in Hrest.
    pose proof (firstn_le_length (Z.to_nat hModules_size) (loaded_modules p)).
    lia.
Qed.

Lemma enumerateImages_silent_failure_and_truncation_witness :
  invocations failing_process never_stop O = []
  /\ sml_enumerateImages failing_process never_stop O = O.
Proof.
  apply (proj1 (enumerateImages_silent_failure_and_truncation
                  failing_process never_stop O)).
  reflexivity.
Defined.

(** ** [sml_copyImageName] *)

(** C10 does not hold of the code: the body of [sml_copyImageName] is empty,
    so for every image control reaches the closing brace of a function that
    is to return [wchar_t *], and no value is returned. *)
Theorem sml_copyImageName_returns_nothing (image : SMLImage) :
  sml_copyImageName image = FlowedOffEnd
  /\ forall v, sml_copyImageName image <> Returned v.
Proof. split; [reflexivity | discriminate]. Qed.

(** * Further properties *)

(** ** The bytes a walk depends on *)

Lemma agree_on_app l1 l2 m1 m2 :
  agree_on (l1 ++ l2) m1 m2 <-> agree_on l1 m1 m2 /\ agree_on l2 m1 m2.
Proof. unfold agree_on. apply Forall_app. Qed.

Lemma agree_on_incl l1 l2 m1 m2 :
  Forall (fun a => In a l2) l1 -> agree_on l2 m1 m2 -> agree_on l1 m1 m2.
Proof.
  unfold agree_on. rewrite !Forall_forall. intros Hincl H a Ha.
  apply H, Hincl, Ha.
Qed.

Lemma local_ret {A} (a : A) : local (ret a).
Proof. intros m1 m2 _. reflexivity. Qed.

Lemma local_bind {A B} (c : Read A) (k : A -> Read B) :
  local c -> (forall a, local (k a)) -> local (bind c k).
Proof.
  intros Hc Hk m1 m2 H. rewrite trace_bind in H.
  apply agree_on_app in H as [H1 H2].
  specialize (Hc m1 m2 H1). specialize (Hk (result c m1) m1 m2 H2).
  unfold bind. rewrite <- Hc. rewrite (run_eq c m1).
  rewrite <- Hk. reflexivity.
Qed.

Lemma local_load_bytes p n : local (load_bytes p n).
Proof.
  intros m1 m2 H. unfold load_bytes. f_equal.
  apply map_ext_in. intros a Ha.
  unfold agree_on in H. rewrite Forall_forall in H. apply H, Ha.
Qed.

Lemma local_load_u8 p : local (load_u8 p).
Proof. apply local_bind; [apply local_load_bytes | intros; apply local_ret]. Qed.

Lemma local_load_u16 p : local (load_u16 p).
Proof. apply local_bind; [apply local_load_bytes | intros; apply local_ret]. Qed.

Lemma local_load_u32 p : local (load_u32 p).
Proof. apply local_bind; [apply local_load_bytes | intros; apply local_ret]. Qed.

Lemma local_load_i32 p : local (load_i32 p).
Proof. apply local_bind; [apply local_load_u32 | intros; apply local_ret]. Qed.

Lemma local_strncmp n : forall s1 s2, local (strncmp s1 s2 n).
Proof.
  induction n as [| n IH]; intros s1 s2; [apply local_ret |].
  cbn [strncmp].
  apply local_bind; [apply local_load_u8 | intros c1].
  apply local_bind; [apply local_load_u8 | intros c2].
  destruct (c1 =? c2); [destruct (c1 =? 0) |];
    try apply local_ret. apply IH.
Qed.

Lemma local_IMAGE_FIRST_SECTION ntheader : local (IMAGE_FIRST_SECTION ntheader).
Proof.
  apply local_bind; [apply local_load_u16 | intros; apply local_ret].
Qed.

Lemma local_findSection_loop dosHeader sectionName : forall remaining section,
  local (sml_findSection_loop dosHeader sectionName remaining section).
Proof.
  induction remaining as [| k IH]; intros section; [apply local_ret |].
  cbn [sml_findSection_loop].
  apply local_bind; [apply local_load_u32 | intros va].
  destruct (va =? 0); [apply IH |].
  apply local_bind; [apply local_load_u32 | intros vs].
  apply local_bind; [apply local_load_u32 | intros raw].
  destruct (negb _ && _); [| apply IH].
  apply local_bind; [apply local_strncmp | intros c].
  destruct (c =? 0); [apply local_ret | apply IH].
Qed.

Lemma local_findSection image sectionName :
  local (sml_findSection image sectionName).
Proof.
  unfold sml_findSection.
  apply local_bind; [apply local_load_i32 | intros e].
  destruct (e <=? 0); [apply local_ret |].
  destruct (_ =? 0); [apply local_ret |].
  apply local_bind; [apply local_load_u32 | intros sig].
  destruct (negb _); [apply local_ret |].
  apply local_bind; [apply local_load_u16 | intros count].
  apply local_bind; [apply local_IMAGE_FIRST_SECTION | intros section].
  apply local_findSection_loop.
Qed.

(** *** The footprint *)

Lemma span_sub p off n k a :
  (Z.to_nat off + n <= k)%nat -> 0 <= off ->
  In a (span (ptr_add p off) n) -> In a (span p k).
Proof.
  intros Hk Hoff Ha. apply In_span in Ha as (i & Hi & ->).
  apply In_span. exists (Z.to_nat off + i)%nat. split; [lia |].
  rewrite ptr_add_ptr_add. f_equal. lia.
Qed.

Lemma Forall_In_app_l {A} (l l1 l2 : list A) :
  Forall (fun a => In a l1) l -> Forall (fun a => In a (l1 ++ l2)) l.
Proof.
  apply Forall_impl. intros a Ha. apply in_or_app. left. exact Ha.
Qed.

Lemma Forall_In_app_r {A} (l l1 l2 : list A) :
  Forall (fun a => In a l2) l -> Forall (fun a => In a (l1 ++ l2)) l.
Proof.
  apply Forall_impl. intros a Ha. apply in_or_app. right. exact Ha.
Qed.

Lemma Forall_In_self {A} (l : list A) : Forall (fun a => In a l) l.
Proof. apply Forall_forall. auto. Qed.

Lemma field_in_entry section off n :
  (Z.to_nat off + n <= 20)%nat -> 0 <= off ->
  Forall (fun a => In a (entry_footprint section)) (span (ptr_add section off) n).
Proof.
  intros Hk Hoff. apply Forall_forall. intros a Ha.
  unfold entry_footprint. eapply span_sub; eassumption.
Qed.

Lemma strncmp_trace_in m sectionName section :
  Forall (fun a => In a (entry_footprint section ++ span sectionName 8))
    (trace (strncmp sectionName (ptr_add section offsetof_Name)
              IMAGE_SIZEOF_SHORT_NAME) m).
Proof.
  eapply Forall_impl; [| apply strncmp_trace].
  cbn beta. intros a [Ha | Ha]; apply in_or_app.
  - right. exact Ha.
  - left. unfold entry_footprint.
    apply (span_sub section offsetof_Name IMAGE_SIZEOF_SHORT_NAME 20);
      [unfold offsetof_Name, IMAGE_SIZEOF_SHORT_NAME; cbn; lia
      | unfold offsetof_Name; lia | exact Ha].
Qed.

Lemma loop_trace_in m dosHeader sectionName : forall remaining section,
  Forall (fun a => In a (flat_map entry_footprint (section_table section remaining)
                         ++ span sectionName 8))
    (trace (sml_findSection_loop dosHeader sectionName remaining section) m).
Proof.
  induction remaining as [| k IH]; intros section; [constructor |].
  cbn [sml_findSection_loop section_table flat_map].
  assert (forall l,
            Forall (fun a => In a (entry_footprint section)) l ->
            Forall (fun a => In a ((entry_footprint section
                                    ++ flat_map entry_footprint
                                         (section_table
                                            (ptr_add section sizeof_IMAGE_SECTION_HEADER) k))
                                   ++ span sectionName 8)) l) as Hfield.
  { intros l Hl. apply Forall_In_app_l, Forall_In_app_l, Hl. }
  assert (Forall (fun a => In a ((entry_footprint section
                                  ++ flat_map entry_footprint
                                       (section_table
                                          (ptr_add section sizeof_IMAGE_SECTION_HEADER) k))
                                 ++ span sectionName 8))
            (trace (sml_findSection_loop dosHeader sectionName k
                      (ptr_add section sizeof_IMAGE_SECTION_HEADER)) m)) as Hnext.
  { eapply Forall_impl; [| apply IH]. cbn beta. intros a Ha.
    rewrite <- app_assoc. apply in_or_app. right. exact Ha. }
  rewrite trace_bind, trace_load_u32. apply Forall_app. split.
  { apply Hfield, field_in_entry; unfold offsetof_VirtualAddress; cbn; lia. }
  destruct (_ =? 0); [exact Hnext |].
  rewrite trace_bind, trace_load_u32. apply Forall_app. split.
  { apply Hfield, field_in_entry; unfold offsetof_VirtualSize; cbn; lia. }
  rewrite trace_bind, trace_load_u32. apply Forall_app. split.
  { apply Hfield, field_in_entry; unfold offsetof_SizeOfRawData; cbn; lia. }
  destruct (negb _ && _); [| exact Hnext].
  rewrite trace_bind. apply Forall_app. split.
  - eapply Forall_impl; [| apply strncmp_trace_in]. cbn beta. intros a Ha.
    apply in_app_or in Ha as [Ha | Ha]; apply in_or_app.
    + left. apply in_or_app. left. exact Ha.
    + right. exact Ha.
  - destruct (_ =? 0); [constructor | exact Hnext].
Qed.

Lemma trace_IMAGE_FIRST_SECTION ntheader m :
  trace (IMAGE_FIRST_SECTION ntheader) m
  = span (ptr_add ntheader (offsetof_FileHeader + offsetof_SizeOfOptionalHeader)) 2.
Proof.
  unfold IMAGE_FIRST_SECTION.
  rewrite trace_bind, trace_load_u16, trace_ret. apply app_nil_r.
Qed.

(** With valid headers: the four header fields, then the loop. *)
Lemma findSection_trace_valid m image sectionName :
  headers_valid m image ->
  trace (sml_findSection image sectionName) m
  = header_footprint m image
    ++ trace (sml_findSection_loop (base image) sectionName
                (section_count m image) (first_section m image)) m.
Proof.
  unfold headers_valid, header_footprint, section_count, first_section,
    nt_signature, nt_header, dos_e_lfanew, sml_findSection.
  intros (H & N & S).
  rewrite trace_bind, trace_load_i32.
  apply Z.leb_gt in H. rewrite H.
  apply Z.eqb_neq in N. rewrite N.
  rewrite trace_bind, trace_load_u32.
  apply Z.eqb_eq in S. rewrite S. cbn [negb].
  rewrite trace_bind, trace_load_u16.
  rewrite trace_bind, trace_IMAGE_FIRST_SECTION.
  rewrite <- !app_assoc. reflexivity.
Qed.

Lemma headers_valid_dec m image :
  headers_valid m image
  \/ dos_e_lfanew m image <= 0
  \/ (0 < dos_e_lfanew m image /\ nt_header m image = 0)
  \/ (0 < dos_e_lfanew m image /\ nt_header m image <> 0
      /\ nt_signature m image <> IMAGE_NT_SIGNATURE).
Proof.
  unfold headers_valid.
  destruct (Z.leb_spec (dos_e_lfanew m image) 0); [tauto |].
  destruct (Z.eqb_spec (nt_header m image) 0); [tauto |].
  destruct (Z.eqb_spec (nt_signature m image) IMAGE_NT_SIGNATURE); tauto.
Qed.

Lemma findSection_trace_in_footprint m image sectionName :
  Forall (fun a => In a (footprint m image sectionName))
    (trace (sml_findSection image sectionName) m).
Proof.
  unfold footprint.
  destruct (headers_valid_dec m image) as [V | [E | [[E N] | (E & N & S)]]].
  - rewrite findSection_trace_valid by exact V. apply Forall_app. split.
    + apply Forall_In_app_l, Forall_In_self.
    + apply Forall_In_app_r, loop_trace_in.
  - rewrite findSection_trace_nonpositive by exact E.
    apply Forall_In_app_l. unfold header_footprint.
    apply Forall_In_app_l, Forall_In_self.
  - rewrite findSection_trace_null_nt_header by assumption.
    apply Forall_In_app_l. unfold header_footprint.
    apply Forall_In_app_l, Forall_In_self.
  - rewrite findSection_trace_bad_signature by assumption.
    apply Forall_In_app_l. unfold header_footprint.
    rewrite app_assoc. apply Forall_In_app_l, Forall_In_self.
Qed.

Lemma span_length p n : List.length (span p n) = n.
Proof. unfold span. rewrite length_map, length_seq. reflexivity. Qed.

Lemma strncmp_trace_length m n : forall s1 s2,
  (List.length (trace (strncmp s1 s2 n) m) <= 2 * n)%nat.
Proof.
  induction n as [| n IH]; intros s1 s2; [cbn; lia |].
  cbn [strncmp]. rewrite !trace_bind, !trace_load_u8, !length_app, !span_length.
  destruct (_ =? _); [destruct (_ =? 0) |]; rewrite ?trace_ret; cbn [List.length];
    try lia.
  specialize (IH (ptr_add s1 1) (ptr_add s2 1)). lia.
Qed.

Lemma loop_trace_length m dosHeader sectionName : forall remaining section,
  (List.length (trace (sml_findSection_loop dosHeader sectionName remaining section) m)
   <= 28 * remaining)%nat.
Proof.
  induction remaining as [| k IH]; intros section; [cbn; lia |].
  specialize (IH (ptr_add section sizeof_IMAGE_SECTION_HEADER)).
  cbn [sml_findSection_loop].
  rewrite trace_bind, trace_load_u32, length_app, span_length.
  destruct (_ =? 0); [lia |].
  rewrite !trace_bind, !trace_load_u32, !length_app, !span_length.
  destruct (negb _ && _); [| lia].
  rewrite trace_bind, length_app.
  pose proof (strncmp_trace_length m IMAGE_SIZEOF_SHORT_NAME sectionName
                (ptr_add section offsetof_Name)) as L.
  change IMAGE_SIZEOF_SHORT_NAME with 8%nat in *.
  destruct (_ =? 0); rewrite ?trace_ret; cbn [List.length]; lia.
Qed.

Lemma section_count_bound m image : Z.of_nat (section_count m image) < 2 ^ 16.
Proof.
  unfold section_count.
  pose proof (load_u16_range
                (ptr_add (nt_header m image)
                   (offsetof_FileHeader + offsetof_NumberOfSections)) m) as R.
  rewrite Z2Nat.id by lia. lia.
Qed.

(** X1: whatever the memory holds, [sml_findSection] reads only the four
    header fields, the first 20 bytes (name, sizes and address) of entries
    of the section table within the declared count, and the first 8 bytes
    of the requested name; it loads at most 12 bytes and 28 more per
    declared section, and the declared count is below 2^16. *)
Theorem findSection_reads_only_footprint m image sectionName :
  Forall (fun a => In a (footprint m image sectionName))
    (trace (sml_findSection image sectionName) m)
  /\ (List.length (trace (sml_findSection image sectionName) m)
      <= 12 + 28 * section_count m image)%nat
  /\ Z.of_nat (section_count m image) < 2 ^ 16.
Proof.
  split; [apply findSection_trace_in_footprint |].
  split; [| apply section_count_bound].
  destruct (headers_valid_dec m image) as [V | [E | [[E N] | (E & N & S)]]].
  - rewrite findSection_trace_valid by exact V.
    unfold header_footprint. rewrite !length_app, !span_length.
    pose proof (loop_trace_length m (base image) sectionName
                  (section_count m image) (first_section m image)).
    lia.
  - rewrite findSection_trace_nonpositive, span_length by exact E. lia.
  - rewrite findSection_trace_null_nt_header, span_length by assumption. lia.
  - rewrite findSection_trace_bad_signature, length_app, !span_length by assumption.
    lia.
Qed.

(** Agreement on a list of addresses, checked by computation. *)
Lemma agree_on_check l m1 m2 :
  forallb (fun a => Byte.eqb (m1 a) (m2 a)) l = true -> agree_on l m1 m2.
Proof.
  unfold agree_on. rewrite forallb_forall, Forall_forall.
  intros H a Ha. apply Byte.byte_dec_bl, H, Ha.
Qed.

(** X2: the outcome of [sml_findSection] and what it reads are fixed by the
    bytes of the footprint: a memory that agrees with [m1] there, whatever it
    holds elsewhere (the contents of the sections included), gives the same
    run. *)
Theorem findSection_depends_on_footprint_only m1 m2 image sectionName :
  agree_on (footprint m1 image sectionName) m1 m2 ->
  sml_findSection image sectionName m1 = sml_findSection image sectionName m2.
Proof.
  intros H. apply local_findSection.
  eapply agree_on_incl; [apply findSection_trace_in_footprint | exact H].
Qed.

Lemma findSection_depends_on_footprint_only_witness :
  sml_findSection sample_image sample_name_ptr sample_memory
  = sml_findSection sample_image sample_name_ptr sample_memory_with_contents.
Proof.
  apply findSection_depends_on_footprint_only.
  apply agree_on_check. vm_compute. reflexivity.
Defined.

(** X3: with valid headers and a section count of zero the result is
    not-found, after the four header fields, 12 bytes, were read. *)
Theorem findSection_empty_table m image sectionName :
  headers_valid m image ->
  section_count m image = O ->
  sml_findSection image sectionName m = (SectionNotFound, header_footprint m image)
  /\ List.length (header_footprint m image) = 12%nat.
Proof.
  intros V Hc. split.
  - rewrite run_eq, findSection_trace_valid by exact V.
    rewrite findSection_result. unfold walk.
    destruct V as (He & Hn & Hs).
    destruct (Z.leb_spec (dos_e_lfanew m image) 0); [lia |].
    destruct (Z.eqb_spec (nt_header m image) 0); [contradiction |].
    rewrite Hs, Z.eqb_refl, Hc. cbn [negb sml_findSection_loop first_match
                                      section_table find].
    rewrite trace_ret, app_nil_r. reflexivity.
  - unfold header_footprint. rewrite !length_app, !span_length. reflexivity.
Qed.

Lemma findSection_empty_table_witness :
  sml_findSection sample_image sample_name_ptr empty_table_memory
  = (SectionNotFound, header_footprint empty_table_memory sample_image).
Proof.
  apply findSection_empty_table.
  - unfold headers_valid. repeat split; try (vm_compute; reflexivity).
    intros H. vm_compute in H. discriminate H.
  - vm_compute. reflexivity.
Defined.

(** ** When a section is found *)

Lemma first_match_complete m matches dosHeader : forall count section i,
  (i < count)%nat ->
  (let e := nth i (section_table section count) 0 in
   eligible m dosHeader e && matches e = true) ->
  (forall j, (j < i)%nat ->
     let e := nth j (section_table section count) 0 in
     eligible m dosHeader e && matches e = false) ->
  first_match m matches dosHeader section count
  = (let e := nth i (section_table section count) 0 in
     Found (mkSection (entry_start m dosHeader e) (entry_size m e))).
Proof.
  unfold first_match. cbv zeta.
  induction count as [| k IH]; intros section i Hi He Hbefore; [lia |].
  cbn [section_table find].
  destruct i as [| i].
  - cbn [section_table nth] in *. rewrite He. reflexivity.
  - pose proof (Hbefore O ltac:(lia)) as H0.
    cbn [section_table nth] in H0. rewrite H0.
    cbn [nth]. apply IH; [lia | exact He |].
    intros j Hj. apply (Hbefore (S j)). lia.
Qed.

Lemma section_table_length : forall count section,
  List.length (section_table section count) = count.
Proof.
  induction count as [| k IH]; intros section; [reflexivity |].
  cbn [section_table List.length]. rewrite IH. reflexivity.
Qed.

Lemma walk_valid m matches image :
  headers_valid m image ->
  walk m matches image
  = first_match m matches (base image) (first_section m image) (section_count m image).
Proof.
  intros (He & Hn & Hs). unfold walk.
  destruct (Z.leb_spec (dos_e_lfanew m image) 0); [lia |].
  destruct (Z.eqb_spec (nt_header m image) 0); [contradiction |].
  rewrite Hs, Z.eqb_refl. reflexivity.
Qed.

(** X4: with valid headers, an entry within the declared count that has a
    nonzero address, a non-null start, a size above zero and a matching
    name, and that no such entry precedes, is the one reported: the result
    is its start and the smaller of its two sizes. *)
Theorem findSection_finds_first_qualifying m image sectionName i :
  headers_valid m image ->
  (i < section_count m image)%nat ->
  (let e := nth i (section_table (first_section m image) (section_count m image)) 0 in
   eligible m (base image) e = true /\ name_matches m sectionName e = true) ->
  (forall j, (j < i)%nat ->
     let e := nth j (section_table (first_section m image) (section_count m image)) 0 in
     eligible m (base image) e = false \/ name_matches m sectionName e = false) ->
  result (sml_findSection image sectionName) m
  = (let e := nth i (section_table (first_section m image) (section_count m image)) 0 in
     Found (mkSection (entry_start m (base image) e) (entry_size m e))).
Proof.
  intros V Hi [He Hm] Hbefore.
  rewrite findSection_result, walk_valid by exact V.
  apply first_match_complete; [exact Hi | |].
  - cbv zeta. rewrite He, Hm. reflexivity.
  - intros j Hj. cbv zeta. apply andb_false_iff. apply Hbefore, Hj.
Qed.

Lemma findSection_finds_first_qualifying_witness :
  result (sml_findSection sample_image sample_name_ptr) sample_memory
  = (let e := nth 1 (section_table (first_section sample_memory sample_image)
                       (section_count sample_memory sample_image)) 0 in
     Found (mkSection (entry_start sample_memory (base sample_image) e)
                      (entry_size sample_memory e))).
Proof.
  apply findSection_finds_first_qualifying.
  - unfold headers_valid. repeat split; try (vm_compute; reflexivity).
    intros H. vm_compute in H. discriminate H.
  - vm_compute. lia.
  - split; vm_compute; reflexivity.
  - intros j Hj. assert (j = O) as -> by lia. right. vm_compute. reflexivity.
Defined.

(** X5: [sml_findSection] returns [true] exactly when both header checks
    pass and some entry within the declared count has a nonzero address, a
    non-null start, a size above zero and a matching name. *)
Theorem findSection_succeeds_iff m image sectionName :
  returned_bool (result (sml_findSection image sectionName) m) = true <->
  headers_valid m image
  /\ exists i, (i < section_count m image)%nat
       /\ let e := nth i (section_table (first_section m image)
                            (section_count m image)) 0 in
          eligible m (base image) e = true /\ name_matches m sectionName e = true.
Proof.
  rewrite findSection_result. split.
  - intros H.
    destruct (walk m (name_matches m sectionName) image) as [| | s] eqn:W;
      try discriminate H.
    apply walk_found in W as [V F]. split; [exact V |].
    apply first_match_found in F as (i & Hi & (He & Hm & _) & _).
    exists i. split; [exact Hi |]. split; assumption.
  - intros (V & i & Hi & He & Hm).
    rewrite walk_valid by exact V.
    destruct (first_match m (name_matches m sectionName) (base image)
                (first_section m image) (section_count m image)) as [| | s] eqn:F;
      [| | reflexivity].
    + apply first_match_never_invalid in F. contradiction.
    + exfalso.
      pose proof (proj1 (first_match_not_found m _ _ _ _) F) as N.
      specialize (N (nth i (section_table (first_section m image)
                              (section_count m image)) 0)).
      rewrite He, Hm in N. cbn in N.
      assert (true = false) as Absurd; [| discriminate Absurd].
      apply N. apply nth_In. rewrite section_table_length. exact Hi.
Qed.

(** ** Requests shorter than the name field *)

Lemma strncmp_short_iff m n : forall k s1 s2,
  strnlen m s1 n = k -> (k < n)%nat ->
  result (strncmp s1 s2 n) m = 0 <->
  map m (span s1 (S k)) = map m (span s2 (S k)).
Proof.
  unfold strnlen.
  induction n as [| n IH]; intros k s1 s2 Hlen Hk; [lia |].
  rewrite strncmp_unfold. cbv zeta.
  cbn [cstr_prefix] in Hlen. cbv zeta in Hlen.
  rewrite (span_S s1), (span_S s2). cbn [map].
  destruct (Z.eqb_spec (byte.unsigned (m (ptr_add s1 0))) 0) as [Z1 | N1].
  - cbn [List.length] in Hlen. subst k. cbn [span seq map].
    destruct (Z.eqb_spec (byte.unsigned (m (ptr_add s1 0)))
                         (byte.unsigned (m (ptr_add s2 0)))) as [E | NE].
    + apply byte.unsigned_inj in E. rewrite E. split; intros _; reflexivity.
    + split; [lia |]. intros H. injection H as H. rewrite H in NE. contradiction.
  - cbn [List.length] in Hlen. destruct k as [| k]; [discriminate Hlen |].
    injection Hlen as Hlen.
    destruct (Z.eqb_spec (byte.unsigned (m (ptr_add s1 0)))
                         (byte.unsigned (m (ptr_add s2 0)))) as [E | NE].
    + apply byte.unsigned_inj in E. rewrite <- E.
      rewrite (IH k (ptr_add s1 1) (ptr_add s2 1) Hlen) by lia.
      split; intros H; congruence.
    + split; [lia |]. intros H. injection H as H _. rewrite H in NE. contradiction.
Qed.

(** X6: for a requested name of [k] characters, [k] below 8, an entry's name
    matches exactly when its name field begins with those [k] characters
    followed by a null byte; the bytes of the field after that null byte
    play no part. *)
Theorem findSection_short_name_match m sectionName section k :
  strnlen m sectionName 8 = k -> (k < 8)%nat ->
  name_matches m sectionName section = true <->
  map m (span sectionName (S k)) = map m (span (ptr_add section offsetof_Name) (S k)).
Proof.
  intros Hlen Hk. unfold name_matches. rewrite Z.eqb_eq.
  apply strncmp_short_iff; assumption.
Qed.

Lemma findSection_short_name_match_witness :
  strnlen embedded_nul_memory sample_name_ptr 8 = 4%nat
  /\ (name_matches embedded_nul_memory sample_name_ptr
        (first_section embedded_nul_memory sample_image) = true <->
      map embedded_nul_memory (span sample_name_ptr 5)
      = map embedded_nul_memory
          (span (ptr_add (first_section embedded_nul_memory sample_image)
                   offsetof_Name) 5)).
Proof.
  assert (strnlen embedded_nul_memory sample_name_ptr 8 = 4%nat) as H
    by (vm_compute; reflexivity).
  split; [exact H |].
  apply (findSection_short_name_match embedded_nul_memory sample_name_ptr
           (first_section embedded_nul_memory sample_image) 4 H).
  lia.
Defined.

(** ** Where the section table lies *)

(** X7: when the image's headers and table do not reach the end of the
    address space, the [i]-th entry the walk examines lies at
    base + e_lfanew + 24 + SizeOfOptionalHeader + 40 * i: the table follows
    the optional header, whose size is taken from the file header. *)
Theorem findSection_table_layout m image i :
  valid_ptr (base image) ->
  0 < dos_e_lfanew m image ->
  base image + dos_e_lfanew m image + offsetof_OptionalHeader
    + size_of_optional_header m image
    + sizeof_IMAGE_SECTION_HEADER * Z.of_nat (section_count m image)
    <= 2 ^ uintptr_bits ->
  (i < section_count m image)%nat ->
  nth i (section_table (first_section m image) (section_count m image)) 0
  = base image + dos_e_lfanew m image + offsetof_OptionalHeader
    + size_of_optional_header m image
    + sizeof_IMAGE_SECTION_HEADER * Z.of_nat i.
Proof.
  intros Hb He Hfit Hi.
  rewrite entry_address by exact Hi.
  pose proof (load_u16_range
                (ptr_add (nt_header m image)
                   (offsetof_FileHeader + offsetof_SizeOfOptionalHeader)) m) as R.
  unfold first_section, IMAGE_FIRST_SECTION, size_of_optional_header, nt_header in *.
  rewrite result_bind, result_ret.
  set (soh := result (load_u16 _) m) in *.
  rewrite !ptr_add_ptr_add.
  unfold ptr_add, uintptr_wrap, valid_ptr,
    offsetof_OptionalHeader, sizeof_IMAGE_SECTION_HEADER in *.
  rewrite Z.mod_small; lia.
Qed.

Lemma findSection_table_layout_witness :
  nth 1 (section_table (first_section sample_memory sample_image)
           (section_count sample_memory sample_image)) 0
  = base sample_image + dos_e_lfanew sample_memory sample_image
    + offsetof_OptionalHeader + size_of_optional_header sample_memory sample_image
    + sizeof_IMAGE_SECTION_HEADER * Z.of_nat 1.
Proof.
  apply findSection_table_layout.
  - unfold valid_ptr. vm_compute. split; [discriminate | reflexivity].
  - vm_compute. reflexivity.
  - vm_compute. discriminate.
  - vm_compute. lia.
Defined.

(** ** More on enumeration *)

Lemma enumerate_snapshot {C} p (body : SMLImageEnumerator C) context :
  sml_enumerateImages p body context
  = sml_enumerateImages_loop p body (snapshot p) context.
Proof.
  unfold sml_enumerateImages, snapshot.
  destruct (EnumProcessModules p _) as [[hModules byteCountNeeded] |]; reflexivity.
Qed.

Lemma loop_fold {C} p (body : SMLImageEnumerator C) : forall hs context,
  sml_enumerateImages_loop p body hs context
  = fold_left (fun c call => snd (body (fst call) c))
      (visits p body hs context) context.
Proof.
  induction hs as [| h rest IH]; intros context; [reflexivity |].
  cbn [sml_enumerateImages_loop visits fold_left fst].
  destruct (body (SMLImage_new p h) context) as [stop context'] eqn:B.
  cbn [fst snd]. destruct stop; [reflexivity | apply IH].
Qed.

(** X8: what [sml_enumerateImages] leaves in the context is what the
    invocations of the visitor leave, one after the other, each started in
    the context the one before left: the function itself changes nothing. *)
Theorem enumerateImages_context_is_visitors_work
    {C} (p : Process) (body : SMLImageEnumerator C) (context : C) :
  sml_enumerateImages p body context
  = fold_left (fun c call => snd (body (fst call) c))
      (invocations p body context) context.
Proof.
  rewrite invocations_visits, enumerate_snapshot. apply loop_fold.
Qed.

Lemma snapshot_firstn p :
  enumeration_succeeds p = true ->
  Z.of_nat (List.length (loaded_modules p)) < 2 ^ 29 ->
  snapshot p = firstn (Z.to_nat hModules_size) (loaded_modules p).
Proof.
  intros Hok Hlen. unfold snapshot, EnumProcessModules. rewrite Hok.
  change (hModules_size * sizeof_HMODULE / sizeof_HMODULE) with hModules_size.
  unfold DWORD_wrap, sizeof_HMODULE, hModules_size.
  change (2 ^ 32) with 4294967296. change (2 ^ 29) with 536870912 in Hlen.
  rewrite (Z.mod_small (_ * 8)) by lia.
  rewrite Z.div_mul by lia.
  rewrite Z.mod_small by lia.
  rewrite firstn_firstn.
  destruct (Z.le_ge_cases 1024 (Z.of_nat (List.length (loaded_modules p)))) as [L | L].
  - rewrite Z.min_l by exact L. f_equal; lia.
  - rewrite Z.min_r by exact L. rewrite Nat2Z.id.
    rewrite Nat.min_l by lia.
    rewrite firstn_all. symmetry. apply firstn_all2. lia.
Qed.

(** X9: when the query succeeds and the visitor never sets the stop flag,
    the modules visited are the first 1024 modules of the process, in
    order: all of them when there are at most 1024.  (The count of modules
    is below 2^29, so that the byte count fits a [DWORD].) *)
Theorem enumerateImages_without_stop_visits_first_1024
    {C} (p : Process) (body : SMLImageEnumerator C) (context : C) :
  enumeration_succeeds p = true ->
  Z.of_nat (List.length (loaded_modules p)) < 2 ^ 29 ->
  (forall image c, fst (body image c) = false) ->
  map visited_base (invocations p body context)
  = firstn (Z.to_nat hModules_size) (loaded_modules p).
Proof.
  intros Hok Hlen Hnostop.
  rewrite invocations_visits, (snapshot_firstn p Hok Hlen).
  generalize (firstn (Z.to_nat hModules_size) (loaded_modules p)) as hs.
  intros hs. revert context.
  induction hs as [| h rest IH]; intros context; [reflexivity |].
  cbn [visits map]. unfold visited_base at 1. cbn [fst].
  rewrite SMLImage_new_base, Hnostop. f_equal. apply IH.
Qed.

Lemma enumerateImages_without_stop_visits_first_1024_witness :
  map visited_base (invocations crowded_process never_stop O)
  = firstn (Z.to_nat hModules_size) (loaded_modules crowded_process).
Proof.
  apply enumerateImages_without_stop_visits_first_1024.
  - reflexivity.
  - vm_compute. reflexivity.
  - intros image c. reflexivity.
Defined.

Lemma find_image_loop p test : forall hs found,
  sml_enumerateImages_loop p (find_image test) hs found
  = match find test (map (SMLImage_new p) hs) with
    | Some image => Some image
    | None => found
    end.
Proof.
  induction hs as [| h rest IH]; intros found; [reflexivity |].
  cbn [sml_enumerateImages_loop map find]. unfold find_image at 1.
  destruct (test (SMLImage_new p h)); [reflexivity | apply IH].
Qed.

(** X10: enumeration with a visitor that keeps the first image passing a
    test and sets the stop flag there gives the first image of the snapshot
    that passes the test, and nothing when no image of the snapshot does. *)
Theorem enumerateImages_finds_first_image (p : Process) (test : SMLImage -> bool) :
  sml_enumerateImages p (find_image test) None
  = find test (map (SMLImage_new p) (snapshot p)).
Proof.
  rewrite enumerate_snapshot, find_image_loop.
  destruct (find test _); reflexivity.
Qed.

(** ** Names, the main image and address lookup *)

Lemma GetModuleFileNameW_empty p h n :
  (0 < n)%nat ->
  List.length (GetModuleFileNameW p h n) = O <-> module_file_name p h = [].
Proof.
  intros Hn. unfold GetModuleFileNameW.
  destruct (module_file_name p h) as [| c cs].
  - rewrite firstn_nil. tauto.
  - destruct n; [lia |]. cbn. split; discriminate.
Qed.

(** X11: [sml_withImageName] invokes the callback once, with the image it
    was given and a name that depends on the image's base only.  The name
    is null exactly when the module has no file name to report, that is
    exactly when an image constructed from that base has the empty name;
    a name that is passed is not empty, holds at most 2048 code units and
    is the leading part of the module's file name. *)
Theorem withImageName_name (p : Process) (image : SMLImage) :
  exists resolved,
    (forall C (context : C) (body : SMLImageNameCallback C),
       sml_withImageName p image context body = body image resolved context)
    /\ (forall other C (context : C) (body : SMLImageNameCallback C),
          base other = base image ->
          sml_withImageName p other context body = body other resolved context)
    /\ (resolved = None <-> module_file_name p (base image) = [])
    /\ (resolved = None <-> name (SMLImage_new p (base image)) = [])
    /\ (forall n, resolved = Some n ->
          n <> [] /\ (List.length n <= name_buffer_size)%nat
          /\ n = firstn name_buffer_size (module_file_name p (base image))).
Proof.
  pose proof (GetModuleFileNameW_empty p (base image) name_buffer_size) as Hbuf.
  pose proof (GetModuleFileNameW_empty p (base image) SMLImage_name_capacity) as Hcap.
  assert (name (SMLImage_new p (base image)) = []
          <-> module_file_name p (base image) = []) as Hnew.
  { unfold SMLImage_new.
    destruct (Nat.eqb_spec
                (List.length (GetModuleFileNameW p (base image) SMLImage_name_capacity)) 0)
      as [E | NE]; cbn [name].
    - split; [intros _ | reflexivity].
      apply Hcap; [unfold SMLImage_name_capacity; lia | exact E].
    - split; intros H.
      + rewrite H in NE. contradiction.
      + apply Hcap in H; [contradiction | unfold SMLImage_name_capacity; lia]. }
  assert (forall other C (context : C) (body : SMLImageNameCallback C),
            base other = base image ->
            sml_withImageName p other context body
            = body other
                (if negb (List.length
                            (GetModuleFileNameW p (base image) name_buffer_size) =? 0)%nat
                 then Some (GetModuleFileNameW p (base image) name_buffer_size)
                 else None)
                context) as Hcall.
  { intros other C context body Hbase. unfold sml_withImageName. rewrite Hbase.
    destruct (negb _); reflexivity. }
  eexists. split; [intros C context body; apply Hcall; reflexivity |].
  split; [exact Hcall |].
  destruct (Nat.eqb_spec
              (List.length (GetModuleFileNameW p (base image) name_buffer_size)) 0)
    as [E | NE]; cbn [negb].
  - assert (module_file_name p (base image) = []) as Hnone
      by (apply Hbuf; [unfold name_buffer_size; lia | exact E]).
    split; [tauto |]. split; [rewrite Hnew; tauto |].
    intros n Hn. discriminate Hn.
  - assert (module_file_name p (base image) <> []) as Hsome.
    { intros H. apply Hbuf in H; [contradiction | unfold name_buffer_size; lia]. }
    split; [split; [discriminate | contradiction] |].
    split; [rewrite Hnew; split; [discriminate | contradiction] |].
    intros n Hn. injection Hn as <-.
    split; [intros H; rewrite H in NE; contradiction |].
    split; [| reflexivity].
    unfold GetModuleFileNameW. apply firstn_le_length.
Qed.

(** X12: looking up the address of the main image's base gives the main
    image itself, provided the loader reports the executable as the module
    containing its own base address and its handle is not null. *)
Theorem getImageContainingAddress_of_main_base (l : Loader) :
  module_from_address l (main_module l) = Some (main_module l) ->
  main_module l <> 0 ->
  sml_getImageContainingAddress l (base (sml_getMainImage l))
  = Some (sml_getMainImage l).
Proof.
  intros Hlookup Hnonnull.
  unfold sml_getMainImage, GetModuleHandleW_null.
  rewrite SMLImage_new_base.
  unfold sml_getImageContainingAddress, GetModuleHandleExW_from_address.
  rewrite Hlookup.
  apply Z.eqb_neq in Hnonnull. rewrite Hnonnull. reflexivity.
Qed.

Lemma getImageContainingAddress_of_main_base_witness :
  sml_getImageContainingAddress sample_loader (base (sml_getMainImage sample_loader))
  = Some (sml_getMainImage sample_loader).
Proof.
  apply getImageContainingAddress_of_main_base.
  - vm_compute. reflexivity.
  - intros H. vm_compute in H. discriminate H.
Defined.

(** X13: [sml_getImageContainingAddress] succeeds exactly when the loader
    reports a module for the address and its handle is not null; the image
    is then the one constructed from that handle, so an image that is
    returned never has a null base.  In every other case the result is
    not-found. *)
Theorem getImageContainingAddress_iff (l : Loader) (address : Z) (image : SMLImage) :
  (sml_getImageContainingAddress l address = Some image <->
   exists h, module_from_address l address = Some h /\ h <> 0
             /\ image = SMLImage_new (loader_process l) h)
  /\ (sml_getImageContainingAddress l address = Some image -> base image <> 0)
  /\ (sml_getImageContainingAddress l address = None <->
      module_from_address l address = None
      \/ module_from_address l address = Some 0).
Proof.
  unfold sml_getImageContainingAddress, GetModuleHandleExW_from_address.
  destruct (module_from_address l address) as [h |]; cbn [andb].
  - destruct (Z.eqb_spec h 0) as [E | NE]; cbn [negb].
    + subst h. split; [| split].
      * split; [discriminate |]. intros (h & Hh & Hn & _).
        injection Hh as <-. contradiction.
      * discriminate.
      * split; [auto | reflexivity].
    + split; [| split].
      * split.
        -- intros H. injection H as <-. exists h. auto.
        -- intros (h' & Hh & _ & ->). injection Hh as <-. reflexivity.
      * intros H. injection H as <-. rewrite SMLImage_new_base. exact NE.
      * split; [discriminate |]. intros [H | H]; [discriminate H |].
        injection H as H. contradiction.
  - split; [| split].
    + split; [discriminate |]. intros (h & Hh & _). discriminate Hh.
    + discriminate.
    + split; [auto | reflexivity].
Qed.

(** ** The size that is reported *)

(** X14: the size of a section that is found is the smaller of the virtual
    size and the raw-data size its entry declares; both are nonzero, so an
    entry that declares a zero virtual size or a zero raw-data size is never
    the one reported. *)
Theorem findSection_size_is_clamped m image sectionName s :
  result (sml_findSection image sectionName) m = Found s ->
  exists i, (i < section_count m image)%nat
    /\ let e := nth i (section_table (first_section m image)
                         (section_count m image)) 0 in
       start s = entry_start m (base image) e
       /\ size s <= entry_VirtualSize m e
       /\ size s <= entry_SizeOfRawData m e
       /\ (size s = entry_VirtualSize m e \/ size s = entry_SizeOfRawData m e)
       /\ entry_VirtualSize m e <> 0
       /\ entry_SizeOfRawData m e <> 0.
Proof.
  intros H. apply findSection_found in H as (i & Hi & He & _ & ->).
  exists i. split; [exact Hi |]. cbv zeta. cbn [start size].
  apply eligible_facts in He as (_ & _ & Hsz).
  unfold entry_size in *. repeat split; lia.
Qed.

Lemma findSection_size_is_clamped_witness :
  exists i, (i < section_count sample_memory sample_image)%nat
    /\ let e := nth i (section_table (first_section sample_memory sample_image)
                         (section_count sample_memory sample_image)) 0 in
       start (mkSection 0x12000 0x30) = entry_start sample_memory (base sample_image) e
       /\ size (mkSection 0x12000 0x30) <= entry_VirtualSize sample_memory e
       /\ size (mkSection 0x12000 0x30) <= entry_SizeOfRawData sample_memory e
       /\ (size (mkSection 0x12000 0x30) = entry_VirtualSize sample_memory e
           \/ size (mkSection 0x12000 0x30) = entry_SizeOfRawData sample_memory e)
       /\ entry_VirtualSize sample_memory e <> 0
       /\ entry_SizeOfRawData sample_memory e <> 0.
Proof.
  apply (findSection_size_is_clamped sample_memory sample_image sample_name_ptr).
  vm_compute. reflexivity.
Defined.
